(** * The state circuit of zkevm-specs: [src/zkevm_specs/state.py]

    A shallow embedding of the row-validity predicate [check_state_row], of the
    per-tag rules it dispatches to, of the row builder ([Assigner.op2row],
    [assign_state_circuit]) and of the projection to the MPT table
    ([mpt_table_from_ops]), followed by the properties proved about them. *)

From stdpp Require Import base decidable countable gmap sets list strings.
From Stdlib Require Import ZArith Lia.

Local Open Scope Z_scope.

(** ** Exceptions and results

    The checks are Python procedures that either return or raise.  A raised
    exception carries what identifies it: the text of the failed [assert], the
    message of a [ValueError], the table of a failed lookup. *)

Inductive exn : Type :=
| AssertionError (stmt : string)
| ValueError (msg : string)
| IndexError
| OverflowError
| LookupUnsatFailure (table_name : string).

Inductive result (A : Type) : Type :=
| Ok (a : A)
| Raise (e : exn).

Arguments Ok {A} a.
Arguments Raise {A} e.

#[global] Instance result_ret : MRet result := λ A a, Ok a.

#[global] Instance result_bind : MBind result := λ A B f m,
  match m with
  | Ok a => f a
  | Raise e => Raise e
  end.

(** [assert cond], labelled by the source text of the condition. *)
Definition assert_ (stmt : string) (cond : bool) : result unit :=
  if cond then Ok tt else Raise (AssertionError stmt).

(** [for x in xs: body(x)] for a body that may raise. *)
Fixpoint for_each {A : Type} (body : A → result unit) (xs : list A) : result unit :=
  match xs with
  | [] => Ok tt
  | x :: xs' => body x ;; for_each body xs'
  end.

(** ** What [state.py] imports from [util.py] and [evm.py]

    The field modulus of [FQ] and the values of the enumeration members that
    the module only names are not in this file of the repository; the
    development is parametric in them. *)

Class Externals : Type := {
  (** [FQ.field_modulus] *)
  field_modulus : Z;
  (** [RW.Read] *)
  RW_Read : Z;
  (** [MPTTableTag.Storage] *)
  MPTTableTag_Storage : Z;
  (** [TxReceiptFieldTag.PostStateOrStatus] *)
  TxReceiptFieldTag_PostStateOrStatus : Z;
  (** [TxReceiptFieldTag.CumulativeGasUsed] *)
  TxReceiptFieldTag_CumulativeGasUsed : Z;
}.

(** A field element is its integer representative [x.n]. *)
Abbreviation FQ := Z (only parsing).

(** [U256] is an integer type name; [U256(x)] is [x]. *)
Definition U256 (x : Z) : Z := x.

Section Field.
Context `{Externals}.

(** [FQ(x)] for an integer [x] *)
Definition FQ_new (x : Z) : FQ := x mod field_modulus.

(** [a + b], [a - b] and [a * b] on field elements; an integer operand is
    wrapped by [FQ_new] first, which changes nothing modulo the modulus. *)
Definition FQ_add (a b : FQ) : FQ := (a + b) mod field_modulus.
Definition FQ_sub (a b : FQ) : FQ := (a - b) mod field_modulus.
Definition FQ_mul (a b : FQ) : FQ := (a * b) mod field_modulus.

(** Modelled from the spec: [util.linear_combine], which is not in the
    source given; the spec has "the base-2^16 linear combination of ten
    16-bit limbs" and "Σ byte_i·challenge^i" over "32 byte-limbs".  The
    sequence is little-endian; [range_check], which the call on the address
    limbs switches off, asks every limb to be a byte. *)
Definition linear_combine (seq : list FQ) (base : FQ) (range_check : bool)
  : result FQ :=
  (if range_check
   then for_each (λ limb, assert_ "0 <= limb < 256"
                            (bool_decide (0 ≤ limb < 256))) seq
   else Ok tt) ;;
  Ok (foldr (λ limb result, FQ_add (FQ_mul result base) limb) (FQ_new 0) seq).
End Field.

(** ** Constants *)

Definition MAX_RW_COUNTER : Z := 2^32 - 1.
Definition MAX_MEMORY_ADDRESS : Z := 2^32 - 1.
Definition MAX_KEY_DIFF : Z := 2^32 - 1.
Definition MAX_STACK_PTR : Z := 1023.
Definition MAX_TAG : Z := 12.
Definition MAX_ID : Z := 2^28 - 1.
Definition MAX_ADDRESS : Z := 2^160 - 1.
Definition MAX_FIELD_TAG : Z := 24.
(** [ceil(log(MAX + 1, 2))]: the number of bits of each bound, as the source's
    comments give them. *)
Definition RW_COUNTER_BITS : Z := Z.log2_up (MAX_RW_COUNTER + 1).
Definition TAG_BITS : Z := Z.log2_up (MAX_TAG + 1).
Definition ID_BITS : Z := Z.log2_up (MAX_ID + 1).
Definition ADDRESS_BITS : Z := Z.log2_up (MAX_ADDRESS + 1).
Definition FIELD_TAG_BITS : Z := Z.log2_up (MAX_FIELD_TAG + 1).

(** ** [Tag] *)

Module Tag.
Inductive t : Set :=
| Start | Memory | Stack | Storage | CallContext | Account | TxRefund
| TxAccessListAccount | TxAccessListAccountStorage | AccountDestructed
| TxLog | TxReceipt.

(** The integer of each member of the [IntEnum]. *)
Definition value (tag : t) : Z :=
  match tag with
  | Start => 1
  | Memory => 2
  | Stack => 3
  | Storage => 4
  | CallContext => 5
  | Account => 6
  | TxRefund => 7
  | TxAccessListAccount => 8
  | TxAccessListAccountStorage => 9
  | AccountDestructed => 10
  | TxLog => 11
  | TxReceipt => 12
  end.
End Tag.

Coercion Tag.value : Tag.t >-> Z.

(** ** [Row] *)

Record Row : Type := mkRow {
  rw_counter : FQ;
  is_write : FQ;
  keys : FQ * FQ * FQ * FQ * FQ;
  key2_limbs : list FQ;
  key4_bytes : list FQ;
  value : FQ;
  (** [auxs] is a 1-tuple; the field is its only component, [auxs[0]]. *)
  auxs : FQ;
  mpt_counter : FQ;
}.

Definition tag (self : Row) : FQ := let '(k0, _, _, _, _) := keys self in k0.
Definition id_ (self : Row) : FQ := let '(_, k1, _, _, _) := keys self in k1.
Definition address (self : Row) : FQ := let '(_, _, k2, _, _) := keys self in k2.
Definition address_limbs (self : Row) : list FQ := key2_limbs self.
Definition field_tag (self : Row) : FQ := let '(_, _, _, k3, _) := keys self in k3.
Definition storage_key (self : Row) : FQ := let '(_, _, _, _, k4) := keys self in k4.
Definition storage_key_bytes (self : Row) : list FQ := key4_bytes self.

(** [row.keys] as the sequence the loops run over. *)
Definition keys_seq (self : Row) : list FQ :=
  [tag self; id_ self; address self; field_tag self; storage_key self].

(** ** The MPT table *)

(** [evm.MPTTableRow]: the six fields the queries of [Tables] name. *)
Record MPTTableRow : Type := mkMPTTableRow {
  counter : FQ;
  target : FQ;
  mpt_address : FQ;
  mpt_key : FQ;
  mpt_value : FQ;
  mpt_value_prev : FQ;
}.

#[global] Instance MPTTableRow_eq_dec : EqDecision MPTTableRow.
Proof. solve_decision. Defined.

#[global] Instance MPTTableRow_countable : Countable MPTTableRow.
Proof.
  refine (inj_countable'
    (λ r, (counter r, target r, mpt_address r, mpt_key r, mpt_value r,
           mpt_value_prev r))
    (λ '(c, t, a, k, v, vp), mkMPTTableRow c t a k v vp) _).
  by intros [].
Defined.

(** Modelled from the spec: [evm.lookup], which is not in the source given;
    the oracle is "consulted by exact match", and "missing or mismatched
    entries reject the row".  The query of both callers fixes all six fields
    of the entry. *)
Definition lookup_ (table_name : string) (table : gset MPTTableRow)
    (query : MPTTableRow) : result MPTTableRow :=
  if decide (query ∈ table) then Ok query
  else Raise (LookupUnsatFailure table_name).

Record Tables : Type := mkTables {
  mpt_table : gset MPTTableRow;
}.

Section StateCircuit.
Context `{Externals}.

Definition mpt_account_lookup (self : Tables)
    (counter target address value value_prev : FQ) : result MPTTableRow :=
  let query := mkMPTTableRow counter target address (FQ_new 0) value value_prev in
  lookup_ "MPTTableRow" (mpt_table self) query.

Definition mpt_storage_lookup (self : Tables)
    (counter address key value value_prev : FQ) : result MPTTableRow :=
  let query := mkMPTTableRow counter (FQ_new MPTTableTag_Storage) address key
                 value value_prev in
  lookup_ "MPTTableRow" (mpt_table self) query.

(** [eq = True; for i in range(len(row.keys)): eq = eq and (...)] *)
Definition all_keys_eq (row row_prev : Row) : bool :=
  fold_left (λ eq '(k, k_prev), eq && (k =? k_prev))
    (zip (keys_seq row) (keys_seq row_prev)) true.

(** ** [LowerThanGadget] *)

Record LowerThanGadget : Type := mkLowerThanGadget {
  lhs : list FQ;
  rhs : list FQ;
}.

(** The loop of [verify] from limb [i] on: one step for each remaining limb
    of [lhs]; [rhs[i]] must exist. *)
Fixpoint verify_loop (lt : bool) (lhs rhs : list FQ) : result bool :=
  match lhs, rhs with
  | [], _ => Ok lt
  | l :: lhs', r :: rhs' =>
      verify_loop ((l <? r) || ((l =? r) && lt)) lhs' rhs'
  | _ :: _, [] => Raise IndexError
  end.

Definition verify (self : LowerThanGadget) : result unit :=
  match lhs self, rhs self with
  | l0 :: lhs', r0 :: rhs' =>
      lt ← verify_loop (l0 <? r0) lhs' rhs';
      assert_ "lt" lt
  | _, _ => Raise IndexError
  end.

Definition assert_in_range (x : FQ) (min_val max_val : Z) : result unit :=
  assert_ "min_val <= x.n and x.n <= max_val"
    ((min_val <=? x) && (x <=? max_val)).

(** ** The per-tag rules *)

Definition check_start (row row_prev : Row) : result unit :=
  (* 1.0. rw_counter is 0 *)
  assert_ "row.rw_counter == 0" (rw_counter row =? 0) ;;
  (* 1. mpt_counter is 0 *)
  assert_ "row.mpt_counter == 0" (mpt_counter row =? 0).

Definition check_memory (row row_prev : Row) : result unit :=
  let get_call_id := id_ in
  let get_memory_address := address in
  (* 2.0. Unused keys are 0 *)
  assert_ "row.field_tag() == 0" (field_tag row =? 0) ;;
  assert_ "row.storage_key() == 0" (storage_key row =? 0) ;;
  (* 2.1. First access for a set of all keys *)
  (if negb (all_keys_eq row row_prev) && (is_write row =? 0)
   then assert_ "row.value == 0" (value row =? 0)
   else Ok tt) ;;
  (* 2.2. mem_addr in range *)
  assert_in_range (get_memory_address row) 0 MAX_MEMORY_ADDRESS ;;
  (* 2.3. value is a byte *)
  assert_in_range (value row) 0 (2^8 - 1).

Definition check_stack (row row_prev : Row) : result unit :=
  let get_call_id := id_ in
  let get_stack_ptr := address in
  (* 3.0. Unused keys are 0 *)
  assert_ "row.field_tag() == 0" (field_tag row =? 0) ;;
  assert_ "row.storage_key() == 0" (storage_key row =? 0) ;;
  (* 3.1. First access for a set of all keys *)
  (if negb (all_keys_eq row row_prev)
   then assert_ "row.is_write == 1" (is_write row =? 1)
   else Ok tt) ;;
  (* 3.2. stack_ptr in range *)
  let stack_ptr := get_stack_ptr row in
  assert_in_range stack_ptr 0 MAX_STACK_PTR ;;
  (* 3.3. stack_ptr only increases by 0 or 1 *)
  if (tag row =? tag row_prev) && (get_call_id row =? get_call_id row_prev)
  then
    let stack_ptr_diff := FQ_sub (get_stack_ptr row) (get_stack_ptr row_prev) in
    assert_in_range stack_ptr_diff 0 1
  else Ok tt.

Definition check_storage (row row_prev : Row) (tables : Tables) : result unit :=
  let get_addr := address in
  let get_storage_key := storage_key in
  let get_committed_value := auxs in
  (* 4.0. Unused keys are 0 *)
  assert_ "row.field_tag() == 0" (field_tag row =? 0) ;;
  (* 4.1. When keys don't change, committed_value must be kept equal *)
  (if all_keys_eq row row_prev
   then assert_ "get_committed_value(row) == get_committed_value(row_prev)"
          (get_committed_value row =? get_committed_value row_prev)
   else Ok tt) ;;
  (* 4.2. MPT storage lookup with incremental counter *)
  let value_prev :=
    if all_keys_eq row row_prev then value row_prev
    else get_committed_value row in
  mpt_storage_lookup tables
    (mpt_counter row) (get_addr row) (get_storage_key row) (value row)
    value_prev ;;
  Ok tt.

Definition check_call_context (row row_prev : Row) : result unit :=
  (* 5.0. Unused keys are 0 *)
  assert_ "row.address() == 0" (address row =? 0) ;;
  assert_ "row.storage_key() == 0" (storage_key row =? 0).

Definition check_account (row row_prev : Row) (tables : Tables) : result unit :=
  let get_addr := address in
  let get_field_tag := field_tag in
  let get_committed_value := auxs in
  (* 6.0. Unused keys are 0 *)
  assert_ "row.id() == 0" (id_ row =? 0) ;;
  assert_ "row.storage_key() == 0" (storage_key row =? 0) ;;
  (* 6.1. When keys don't change, committed_value must be kept equal *)
  (if all_keys_eq row row_prev
   then assert_ "get_committed_value(row) == get_committed_value(row_prev)"
          (get_committed_value row =? get_committed_value row_prev)
   else Ok tt) ;;
  (* 6.2. MPT storage lookup with incremental counter *)
  let value_prev :=
    if all_keys_eq row row_prev then value row_prev
    else get_committed_value row in
  mpt_account_lookup tables
    (mpt_counter row) (get_field_tag row) (get_addr row) (value row)
    value_prev ;;
  Ok tt.

Definition check_tx_refund (row row_prev : Row) : result unit :=
  (* 7.0. Unused keys are 0 *)
  assert_ "row.address() == 0" (address row =? 0) ;;
  assert_ "row.field_tag() == 0" (field_tag row =? 0) ;;
  assert_ "row.storage_key() == 0" (storage_key row =? 0).

Definition check_tx_access_list_account (row row_prev : Row) : result unit :=
  (* 9.0. Unused keys are 0 *)
  assert_ "row.field_tag() == 0" (field_tag row =? 0) ;;
  assert_ "row.storage_key() == 0" (storage_key row =? 0).

Definition check_tx_access_list_account_storage (row row_prev : Row)
  : result unit :=
  (* 8.0. Unused keys are 0 *)
  assert_ "row.field_tag() == 0" (field_tag row =? 0).

Definition check_account_destructed (row row_prev : Row) : result unit :=
  (* 10.0. Unused keys are 0 *)
  assert_ "row.id() == 0" (id_ row =? 0) ;;
  assert_ "row.field_tag() == 0" (field_tag row =? 0) ;;
  assert_ "row.storage_key() == 0" (storage_key row =? 0).

Definition check_tx_log (row row_prev : Row) : result unit :=
  let tx_id := id_ row in
  let prev_tx_id := id_ row_prev in
  (* 12.0 is_write is always true *)
  assert_ "row.is_write == 1" (is_write row =? 1).

Definition check_tx_receipt (row row_prev : Row) : result unit :=
  let tx_id := id_ row in
  let pre_tx_id := id_ row_prev in
  let field_tag := field_tag row in
  (* 11.0. Unused keys are 0 *)
  assert_ "row.address() == 0" (address row =? 0) ;;
  assert_ "row.storage_key() == 0" (storage_key row =? 0) ;;
  (* 11.1 value for tag PostStateOrStatus is bool (0 or 1) *)
  (if field_tag =? U256 TxReceiptFieldTag_PostStateOrStatus
   then assert_ "row.value in [0, 1]" ((value row =? 0) || (value row =? 1))
   else Ok tt) ;;
  (* 11.2 when tx id changes, must be increasing by one, the
     CumulativeGasUsed must be increasing as well *)
  (if negb (tx_id =? pre_tx_id) && (tag row =? tag row_prev)
   then
     assert_ "tx_id == pre_tx_id + 1" (tx_id =? FQ_add pre_tx_id 1) ;;
     if field_tag =? U256 TxReceiptFieldTag_CumulativeGasUsed
     then assert_ "row.value.n > row_prev.value.n" (value row >? value row_prev)
     else Ok tt
   else Ok tt) ;;
  (* 11.3 tx id starts with 1 *)
  (if negb (tag row =? tag row_prev)
   then assert_ "tx_id == FQ(1)" (tx_id =? FQ_new 1)
   else Ok tt) ;;
  assert_in_range tx_id 1 (2^11).

(** ** [check_state_row] *)

(** [int.from_bytes(bs, "little")] on a sequence of integers, which must be
    bytes. *)
Definition int_from_bytes_little (bs : list Z) : result Z :=
  for_each (λ b, if bool_decide (0 ≤ b < 256) then Ok tt
                 else Raise (ValueError "bytes must be in range(0, 256)")) bs ;;
  Ok (foldr (λ b acc, b + 256 * acc) 0 bs).

(** [for i in range(n): limbs.append(FQ(v & 0xFFFF)); v = v >> 16] *)
Fixpoint limbs_of (n : nat) (v : Z) : list FQ :=
  match n with
  | O => []
  | S n' => FQ_new (Z.land v 0xFFFF) :: limbs_of n' (Z.shiftr v 16)
  end.

(** The list of 16 bit limbs with all the keys and rw_counter used for the
    lexicographic ordering. *)
Definition keys_rwc_to_limbs_in_order (row : Row) : result (list FQ) :=
  let v := tag row in
  let v := v * 2^ID_BITS + id_ row in
  let v := v * 2^ADDRESS_BITS + address row in
  let v := v * 2^16 + field_tag row in
  key ← int_from_bytes_little (storage_key_bytes row);
  let v := v * 2^32 + key in
  let v := v * 2^RW_COUNTER_BITS + rw_counter row in
  Ok (limbs_of 31 v).

(** 0.4. Keys and RWC are sorted in lexicographic order for same Tag *)
Definition check_keys_rwc_order (row row_prev : Row) : result unit :=
  assert_ "TAG_BITS + ID_BITS == 2 * 16" (TAG_BITS + ID_BITS =? 2 * 16) ;;
  limbs_prev ← keys_rwc_to_limbs_in_order row_prev;
  limbs ← keys_rwc_to_limbs_in_order row;
  if negb (tag row =? Tag.Start)
  then verify (mkLowerThanGadget limbs_prev limbs)
  else Ok tt.

(** Constraints that affect all rows, no matter which Tag they use *)
Definition check_all_rows (row row_prev : Row) (randomness : FQ) : result unit :=
  (* 0.0. tag, id, field_tag are in the expected range *)
  assert_in_range (tag row) 1 MAX_TAG ;;
  assert_in_range (id_ row) 0 MAX_ID ;;
  assert_in_range (field_tag row) 0 MAX_FIELD_TAG ;;
  (* 0.1. address is linear combination of 10 x 16bit limbs and also in range *)
  for_each (λ limb, assert_in_range limb 0 (2^16 - 1)) (address_limbs row) ;;
  lc ← linear_combine (address_limbs row) (FQ_new (2^16)) false;
  assert_ "row.address() == linear_combine(row.address_limbs(), FQ(2**16), range_check=False)"
    (address row =? lc) ;;
  (* 0.2. address is RLC encoded *)
  rlc ← linear_combine (storage_key_bytes row) randomness true;
  assert_ "row.storage_key() == linear_combine(row.storage_key_bytes(), randomness)"
    (storage_key row =? rlc) ;;
  (* 0.3. is_write is boolean *)
  assert_ "row.is_write in [0, 1]" ((is_write row =? 0) || (is_write row =? 1)) ;;
  (* 0.4. Keys and RWC are sorted in lexicographic order for same Tag *)
  check_keys_rwc_order row row_prev ;;
  (* 0.5. Read consistency *)
  (if (is_write row =? 0) && all_keys_eq row row_prev
   then assert_ "row.value == row_prev.value" (value row =? value row_prev)
   else Ok tt) ;;
  (* 7. Increment mpt_counter *)
  (if negb (tag row =? Tag.Start)
   then
     if (tag row =? Tag.Storage) || (tag row =? Tag.Account)
     then assert_ "row.mpt_counter == row_prev.mpt_counter + 1"
            (mpt_counter row =? FQ_add (mpt_counter row_prev) 1)
     else assert_ "row.mpt_counter == row_prev.mpt_counter"
            (mpt_counter row =? mpt_counter row_prev)
   else Ok tt) ;;
  (* 8. RWC !=0 except for Tag.Start *)
  if negb (tag row =? Tag.Start)
  then assert_ "row.rw_counter != 0" (negb (rw_counter row =? 0))
  else Ok tt.

(** Constraints specific to each Tag *)
Definition check_by_tag (row row_prev : Row) (tables : Tables) : result unit :=
  if tag row =? Tag.Start then check_start row row_prev
  else if tag row =? Tag.Memory then check_memory row row_prev
  else if tag row =? Tag.Stack then check_stack row row_prev
  else if tag row =? Tag.Storage then check_storage row row_prev tables
  else if tag row =? Tag.CallContext then check_call_context row row_prev
  else if tag row =? Tag.Account then check_account row row_prev tables
  else if tag row =? Tag.TxRefund then check_tx_refund row row_prev
  else if tag row =? Tag.TxAccessListAccountStorage
       then check_tx_access_list_account_storage row row_prev
  else if tag row =? Tag.TxAccessListAccount
       then check_tx_access_list_account row row_prev
  else if tag row =? Tag.AccountDestructed
       then check_account_destructed row row_prev
  else if tag row =? Tag.TxReceipt then check_tx_receipt row row_prev
  else if tag row =? Tag.TxLog then check_tx_log row row_prev
  else Raise (ValueError "Unreacheable").

Definition check_state_row (row row_prev : Row) (tables : Tables)
    (randomness : FQ) : result unit :=
  check_all_rows row row_prev randomness ;;
  check_by_tag row row_prev tables.

(** The twelve per-tag checkers, by the tag each one is for. *)
Definition per_tag_check (t : Tag.t) (row row_prev : Row) (tables : Tables)
  : result unit :=
  match t with
  | Tag.Start => check_start row row_prev
  | Tag.Memory => check_memory row row_prev
  | Tag.Stack => check_stack row row_prev
  | Tag.Storage => check_storage row row_prev tables
  | Tag.CallContext => check_call_context row row_prev
  | Tag.Account => check_account row row_prev tables
  | Tag.TxRefund => check_tx_refund row row_prev
  | Tag.TxAccessListAccount => check_tx_access_list_account row row_prev
  | Tag.TxAccessListAccountStorage =>
      check_tx_access_list_account_storage row row_prev
  | Tag.AccountDestructed => check_account_destructed row row_prev
  | Tag.TxLog => check_tx_log row row_prev
  | Tag.TxReceipt => check_tx_receipt row row_prev
  end.

(** ** Operations *)

(** State circuit operation superclass.  [value] and [aux0] are declared as
    field elements and the other fields as integers; the constructors pass on
    what they are given, and [op2row] takes every field into the field. *)
Record Operation : Type := mkOperation {
  op_rw_counter : Z;
  op_rw : Z;
  op_tag : Z;
  op_id : Z;
  op_address : Z;
  op_field_tag : Z;
  op_storage_key : Z;
  op_value : FQ;
  op_aux0 : FQ;
}.

Definition StartOp : Operation :=
  mkOperation 0 0
    (U256 Tag.Start) (U256 0) (U256 0) (U256 0) (U256 0)
    (FQ_new 0) (FQ_new 0).

Definition MemoryOp (rw_counter rw call_id mem_addr value : Z) : Operation :=
  mkOperation rw_counter rw
    (U256 Tag.Memory) (U256 call_id) (U256 mem_addr) (U256 0) (U256 0)
    (FQ_new value) (FQ_new 0).

Definition StackOp (rw_counter rw call_id stack_ptr : Z) (value : FQ)
  : Operation :=
  mkOperation rw_counter rw
    (U256 Tag.Stack) (U256 call_id) (U256 stack_ptr) (U256 0) (U256 0)
    value (FQ_new 0).

Definition StorageOp (rw_counter rw tx_id addr key : Z)
    (value committed_value : FQ) : Operation :=
  mkOperation rw_counter rw
    (U256 Tag.Storage) (U256 tx_id) (U256 addr) (U256 0) (U256 key)
    value committed_value.

Definition CallContextOp (rw_counter rw call_id field_tag : Z) (value : FQ)
  : Operation :=
  mkOperation rw_counter rw
    (U256 Tag.CallContext) (U256 call_id) (U256 0) (U256 field_tag) (U256 0)
    value (FQ_new 0).

Definition AccountOp (rw_counter rw addr field_tag : Z)
    (value committed_value : FQ) : Operation :=
  mkOperation rw_counter rw
    (U256 Tag.Account) (U256 0) (U256 addr) (U256 field_tag) (U256 0)
    value committed_value.

Definition TxRefundOp (rw_counter rw tx_id : Z) (value : FQ) : Operation :=
  mkOperation rw_counter rw
    (U256 Tag.TxRefund) (U256 tx_id) (U256 0) (U256 0) (U256 0)
    value (FQ_new 0).

Definition TxAccessListAccountOp (rw_counter rw tx_id addr : Z) (value : FQ)
  : Operation :=
  mkOperation rw_counter rw
    (U256 Tag.TxAccessListAccount) (U256 tx_id) (U256 addr) (U256 0) (U256 0)
    value (FQ_new 0).

Definition TxAccessListAccountStorageOp (rw_counter rw tx_id addr key : Z)
    (value : FQ) : Operation :=
  mkOperation rw_counter rw
    (U256 Tag.TxAccessListAccountStorage)
    (U256 tx_id) (U256 addr) (U256 0) (U256 key)
    value (FQ_new 0).

Definition AccountDestructedOp (rw_counter rw addr : Z) (value : FQ)
  : Operation :=
  mkOperation rw_counter rw
    (U256 Tag.AccountDestructed) (U256 0) (U256 addr) (U256 0) (U256 0)
    value (FQ_new 0).

Definition TxLogOp (rw_counter rw tx_id log_id field_tag index : Z)
    (value : FQ) : Operation :=
  mkOperation rw_counter rw
    (U256 Tag.TxLog) (U256 tx_id) (U256 log_id) (U256 field_tag) (U256 index)
    value (FQ_new 0).

Definition TxReceiptOp (rw_counter rw tx_id field_tag : Z) (value : FQ)
  : Operation :=
  mkOperation rw_counter rw
    (U256 Tag.TxReceipt) (U256 tx_id) (U256 0) (U256 field_tag) (U256 0)
    value (FQ_new 0).

(** ** The row builder *)

(** The bytes of [x.to_bytes(length, "little")], least significant first. *)
Fixpoint le_bytes_of (length : nat) (x : Z) : list Z :=
  match length with
  | O => []
  | S length' => x mod 256 :: le_bytes_of length' (x / 256)
  end.

(** [x.to_bytes(length, "little")]: raises when [x] is negative or too big. *)
Definition int_to_bytes_little (x : Z) (length : nat) : result (list Z) :=
  if bool_decide (0 ≤ x < 256 ^ Z.of_nat length)
  then Ok (le_bytes_of length x)
  else Raise OverflowError.

(** Modelled from the spec: [util.RLC], which is not in the source given; the
    builder "computes the RLC encoding (and its byte decomposition) of the
    storage key", the encoding being the linear combination of the 32
    little-endian bytes of the key under the challenge. *)
Record RLC : Type := mkRLC {
  le_bytes : list Z;
  rlc_value : FQ;
}.

Definition RLC_new (int_ : Z) (randomness : FQ) : result RLC :=
  le_bytes ← int_to_bytes_little int_ 32;
  rlc_value ← linear_combine le_bytes randomness true;
  Ok (mkRLC le_bytes rlc_value).

Definition RLC_expr (self : RLC) : FQ := rlc_value self.

(** [FQ(address_bytes[i] + 2**8 * address_bytes[i + 1]) for i in range(0, 20, 2)] *)
Fixpoint limbs_of_bytes (address_bytes : list Z) : list FQ :=
  match address_bytes with
  | b0 :: b1 :: rest => FQ_new (b0 + 2^8 * b1) :: limbs_of_bytes rest
  | _ => []
  end.

Record Assigner : Type := mkAssigner {
  Assigner_mpt_counter : FQ;
}.

Definition Assigner_init : Assigner := mkAssigner (FQ_new 0).

(** [op2row] returns the row and the assigner as the call leaves it. *)
Definition op2row (self : Assigner) (op : Operation) (randomness : FQ)
  : result (Row * Assigner) :=
  let rw_counter := FQ_new (op_rw_counter op) in
  let is_write := if op_rw op =? RW_Read then FQ_new 0 else FQ_new 1 in
  let tag := FQ_new (op_tag op) in
  let id := FQ_new (op_id op) in
  let address := FQ_new (op_address op) in
  address_bytes ← int_to_bytes_little (op_address op) 20;
  let address_limbs := limbs_of_bytes address_bytes in
  let field_tag := FQ_new (op_field_tag op) in
  storage_key_rlc ← RLC_new (op_storage_key op) randomness;
  let storage_key := RLC_expr storage_key_rlc in
  let storage_key_bytes := FQ_new <$> le_bytes storage_key_rlc in
  let value := FQ_new (op_value op) in
  let aux0 := FQ_new (op_aux0 op) in
  let self :=
    if (tag =? FQ_new Tag.Storage) || (tag =? FQ_new Tag.Account)
    then mkAssigner (FQ_add (Assigner_mpt_counter self) 1)
    else self in
  Ok (mkRow rw_counter is_write
        (tag, id, address, field_tag, storage_key) address_limbs
        storage_key_bytes
        value aux0
        (Assigner_mpt_counter self),
      self).

(** [[assigner.op2row(op, randomness) for op in ops]] *)
Fixpoint op2row_each (assigner : Assigner) (ops : list Operation)
    (randomness : FQ) : result (list Row) :=
  match ops with
  | [] => Ok []
  | op :: ops' =>
      '(row, assigner) ← op2row assigner op randomness;
      rows ← op2row_each assigner ops' randomness;
      Ok (row :: rows)
  end.

(** Generate the advice Rows from a list of Operations *)
Definition assign_state_circuit (ops : list Operation) (randomness : FQ)
  : result (list Row) :=
  let assigner := Assigner_init in
  op2row_each assigner ops randomness.

(** The body of the loop of [mpt_table_from_ops] at [(idx, row)]: the rows it
    appends to [mpt_rows]. *)
Definition mpt_rows_at (rows : list Row) (idx : nat) (row : Row)
  : list MPTTableRow :=
  let value_prev := auxs row in
  let value_prev :=
    match idx with
    | O => value_prev
    | S idx_prev =>
        match rows !! idx_prev with
        | Some row_prev =>
            if all_keys_eq row row_prev then value row_prev else value_prev
        | None => value_prev
        end
    end in
  if tag row =? FQ_new Tag.Storage
  then [mkMPTTableRow (mpt_counter row) (FQ_new MPTTableTag_Storage)
          (address row) (storage_key row) (value row) value_prev]
  else if tag row =? FQ_new Tag.Account
  then [mkMPTTableRow (mpt_counter row) (field_tag row)
          (address row) (storage_key row) (value row) value_prev]
  else [].

(** [ops_or_rows] is a list of operations or a list of rows; which one is
    read off its first element. *)
Definition mpt_table_from_ops (ops_or_rows : list Operation + list Row)
    (randomness : FQ) : result (gset MPTTableRow) :=
  rows ← match ops_or_rows with
         | inl [] | inr [] => Raise IndexError
         | inl ops => assign_state_circuit ops randomness
         | inr rows => Ok rows
         end;
  let mpt_rows := mjoin (imap (mpt_rows_at rows) rows) in
  Ok (list_to_set mpt_rows).

(** An operation of [mpt_counter]: its tag, as a field element, is Storage or
    Account. *)
Definition is_mpt_op (op : Operation) : bool :=
  bool_decide (FQ_new (op_tag op) = Tag.Storage ∨
               FQ_new (op_tag op) = Tag.Account).

End StateCircuit.

(** ** The order the rows are meant to be in

    The composite key of a row, most significant component first, with the
    storage key as the integer of its 32 little-endian bytes, and the strict
    lexicographic order on such keys. *)

Definition storage_key_int (row : Row) : Z :=
  foldr (λ b acc, b + 256 * acc) 0 (storage_key_bytes row).

Definition composite_key (row : Row) : list Z :=
  [tag row; id_ row; address row; field_tag row; storage_key_int row;
   rw_counter row].

Fixpoint lex_lt (k1 k2 : list Z) : bool :=
  match k1, k2 with
  | x1 :: k1', x2 :: k2' => (x1 <? x2) || ((x1 =? x2) && lex_lt k1' k2')
  | _, _ => false
  end.

(** The integer a little-endian sequence of 16-bit limbs stands for. *)
Definition le_value (limbs : list Z) : Z :=
  foldr (λ limb acc, limb + 2^16 * acc) 0 limbs.

(** The integer that [keys_rwc_to_limbs_in_order] cuts into limbs. *)
Definition packed_keys_rwc (row : Row) : Z :=
  ((((tag row * 2^ID_BITS + id_ row) * 2^ADDRESS_BITS + address row) * 2^16
    + field_tag row) * 2^32 + storage_key_int row) * 2^RW_COUNTER_BITS
  + rw_counter row.

(** Every field of the row is within its declared bit width. *)
Definition within_bit_widths (row : Row) : bool :=
  bool_decide (0 ≤ tag row < 2^TAG_BITS) &&
  bool_decide (0 ≤ id_ row < 2^ID_BITS) &&
  bool_decide (0 ≤ address row < 2^ADDRESS_BITS) &&
  bool_decide (0 ≤ field_tag row < 2^FIELD_TAG_BITS) &&
  bool_decide (length (storage_key_bytes row) = 32%nat) &&
  forallb (λ b, bool_decide (0 ≤ b < 2^8)) (storage_key_bytes row) &&
  bool_decide (0 ≤ rw_counter row < 2^RW_COUNTER_BITS).

(** ** The keys a tag leaves unused

    The keys that the checker of each tag asserts to be 0 (its "Unused keys
    are 0" block). *)

Definition unused_keys (t : Tag.t) (row : Row) : list FQ :=
  match t with
  | Tag.Start => []
  | Tag.Memory => [field_tag row; storage_key row]
  | Tag.Stack => [field_tag row; storage_key row]
  | Tag.Storage => [field_tag row]
  | Tag.CallContext => [address row; storage_key row]
  | Tag.Account => [id_ row; storage_key row]
  | Tag.TxRefund => [address row; field_tag row; storage_key row]
  | Tag.TxAccessListAccount => [field_tag row; storage_key row]
  | Tag.TxAccessListAccountStorage => [field_tag row]
  | Tag.AccountDestructed => [id_ row; field_tag row; storage_key row]
  | Tag.TxLog => []
  | Tag.TxReceipt => [address row; storage_key row]
  end.

(** The storage key bytes of the row are bytes. *)
Definition bytes_ok (row : Row) : Prop :=
  Forall (λ b, 0 ≤ b < 256) (storage_key_bytes row).

(** ** Operations and the rows built from them *)

Section Built.
Context `{Externals}.

(** The fields of a row that are those of its operation, taken into the
    field, with the address limbs cut from the 20 bytes of the address. *)
Definition built_from (op : Operation) (row : Row) : Prop :=
  rw_counter row = FQ_new (op_rw_counter op) ∧
  is_write row = (if op_rw op =? RW_Read then FQ_new 0 else FQ_new 1) ∧
  tag row = FQ_new (op_tag op) ∧
  id_ row = FQ_new (op_id op) ∧
  address row = FQ_new (op_address op) ∧
  field_tag row = FQ_new (op_field_tag op) ∧
  value row = FQ_new (op_value op) ∧
  auxs row = FQ_new (op_aux0 op) ∧
  0 ≤ op_address op < 2^160 ∧
  key2_limbs row = limbs_of_bytes (le_bytes_of 20 (op_address op)).

(** A field element as [FQ] holds it: the representative in [0, modulus). *)
Definition canonical (x : FQ) : Prop := 0 ≤ x < field_modulus.

(** The fields of the row that [op2row] makes with [FQ] itself are canonical;
    the storage key, which comes out of [RLC], is left aside. *)
Definition canonical_row (row : Row) : Prop :=
  canonical (rw_counter row) ∧ canonical (is_write row) ∧
  canonical (tag row) ∧ canonical (id_ row) ∧ canonical (address row) ∧
  canonical (field_tag row) ∧
  Forall canonical (key2_limbs row) ∧ Forall canonical (key4_bytes row) ∧
  canonical (value row) ∧ canonical (auxs row) ∧
  canonical (mpt_counter row).

(** The operations that the constructor of each tag builds. *)
Inductive constructed : Tag.t → Operation → Prop :=
| constructed_Start : constructed Tag.Start StartOp
| constructed_Memory rwc rw call_id mem_addr value :
    constructed Tag.Memory (MemoryOp rwc rw call_id mem_addr value)
| constructed_Stack rwc rw call_id stack_ptr value :
    constructed Tag.Stack (StackOp rwc rw call_id stack_ptr value)
| constructed_Storage rwc rw tx_id addr key value committed_value :
    constructed Tag.Storage
      (StorageOp rwc rw tx_id addr key value committed_value)
| constructed_CallContext rwc rw call_id field_tag value :
    constructed Tag.CallContext (CallContextOp rwc rw call_id field_tag value)
| constructed_Account rwc rw addr field_tag value committed_value :
    constructed Tag.Account
      (AccountOp rwc rw addr field_tag value committed_value)
| constructed_TxRefund rwc rw tx_id value :
    constructed Tag.TxRefund (TxRefundOp rwc rw tx_id value)
| constructed_TxAccessListAccount rwc rw tx_id addr value :
    constructed Tag.TxAccessListAccount
      (TxAccessListAccountOp rwc rw tx_id addr value)
| constructed_TxAccessListAccountStorage rwc rw tx_id addr key value :
    constructed Tag.TxAccessListAccountStorage
      (TxAccessListAccountStorageOp rwc rw tx_id addr key value)
| constructed_AccountDestructed rwc rw addr value :
    constructed Tag.AccountDestructed (AccountDestructedOp rwc rw addr value)
| constructed_TxLog rwc rw tx_id log_id field_tag index value :
    constructed Tag.TxLog (TxLogOp rwc rw tx_id log_id field_tag index value)
| constructed_TxReceipt rwc rw tx_id field_tag value :
    constructed Tag.TxReceipt (TxReceiptOp rwc rw tx_id field_tag value).

(** The row is a Storage or an Account row, as the projection tests it. *)
Definition is_mpt_row (row : Row) : bool :=
  (tag row =? FQ_new Tag.Storage) || (tag row =? FQ_new Tag.Account).

End Built.

(** ** Reference values

    Values for the parameters (the order of the scalar field of BN254, and
    the enumeration members numbered from their first use) and a few rows,
    used to run the definitions on concrete inputs. *)

Definition bn128_externals : Externals := {|
  field_modulus :=
    21888242871839275222246405745257275088548364400416034343698204186575808495617;
  RW_Read := 0;
  MPTTableTag_Storage := 4;
  TxReceiptFieldTag_PostStateOrStatus := 1;
  TxReceiptFieldTag_CumulativeGasUsed := 2;
|}.

Definition zero_limbs : list FQ := replicate 10 0.
Definition zero_bytes : list FQ := replicate 32 0.

(** A row whose address and storage key are zero. *)
Definition plain_row (rw_counter is_write tag id field_tag value mpt_counter : FQ)
  : Row :=
  mkRow rw_counter is_write (tag, id, 0, field_tag, 0) zero_limbs zero_bytes
    value 0 mpt_counter.

(** A row of tag Memory or Stack at address [addr < 2^16]. *)
Definition addressed_row (rw_counter is_write tag id addr value : FQ) : Row :=
  mkRow rw_counter is_write (tag, id, addr, 0, 0)
    (addr :: replicate 9 0) zero_bytes value 0 0.

(** A Storage row of storage key 0 at address [addr < 2^16]. *)
Definition storage_row
    (rw_counter is_write tx_id addr value committed_value mpt_counter : FQ)
  : Row :=
  mkRow rw_counter is_write (Tag.Storage : Z, tx_id, addr, 0, 0)
    (addr :: replicate 9 0) zero_bytes value committed_value mpt_counter.

(** The bytes of the storage key 2^49, and the Storage row of transaction 1
    at that key as [op2row] builds it under the challenge 7. *)
Definition key_2_49_bytes : list FQ := replicate 6 0 ++ [2] ++ replicate 25 0.

Definition storage_row_key_2_49
    (rw_counter addr value committed_value mpt_counter : FQ) : Row :=
  mkRow rw_counter 1 (Tag.Storage : Z, 1, addr, 0, 2 * 7^6)
    (addr :: replicate 9 0) key_2_49_bytes value committed_value mpt_counter.

(** The Start row: what [op2row] makes of [StartOp]. *)
Definition start_row : Row := plain_row 0 0 Tag.Start 0 0 0 0.

(** An Account row at address [addr < 2^16]. *)
Definition account_row
    (rw_counter is_write addr field_tag value committed_value mpt_counter : FQ)
  : Row :=
  mkRow rw_counter is_write (Tag.Account : Z, 0, addr, field_tag, 0)
    (addr :: replicate 9 0) zero_bytes value committed_value mpt_counter.

(** A sorted trace: a write and a read of one storage slot, then a write of
    the balance (field tag 2) of the account; its rows under the challenge 7
    and the table projected from them. *)
Definition sample_ops : list Operation :=
  [ @StartOp bn128_externals;
    @StorageOp 5 1 1 10 0 9 0;
    @StorageOp 6 0 1 10 0 9 0;
    @AccountOp 7 1 10 2 100 50 ].

Definition sample_rows : list Row :=
  [ start_row;
    storage_row 5 1 1 10 9 0 1;
    storage_row 6 0 1 10 9 0 2;
    account_row 7 1 10 2 100 50 3 ].

Definition sample_table : gset MPTTableRow :=
  list_to_set
    [ mkMPTTableRow 1 4 10 0 9 0;
      mkMPTTableRow 2 4 10 0 9 9;
      mkMPTTableRow 3 2 10 0 100 50 ].

(** * Properties *)

(** ** Results *)

Lemma bind_Ok {A B : Type} (m : result A) (f : A → result B) (b : B) :
  m ≫= f = Ok b → ∃ a, m = Ok a ∧ f a = Ok b.
Proof. destruct m as [a|e]; [eauto | discriminate]. Qed.

Lemma assert_Ok (stmt : string) (cond : bool) (u : unit) :
  assert_ stmt cond = Ok u → cond = true.
Proof. by destruct cond. Qed.

Lemma assert_in_range_Ok (x : FQ) (min_val max_val : Z) (u : unit) :
  assert_in_range x min_val max_val = Ok u → min_val ≤ x ≤ max_val.
Proof. intros Ha%assert_Ok. lia. Qed.

Lemma result_unit_cases (m : result unit) : m = Ok tt ∨ ∃ e, m = Raise e.
Proof. destruct m as [[]|e]; eauto. Qed.

Lemma all_keys_eq_true (row row_prev : Row) :
  all_keys_eq row row_prev = true ↔ keys row = keys row_prev.
Proof.
  unfold all_keys_eq, keys_seq, tag, id_, address, field_tag, storage_key.
  destruct (keys row) as [[[[a0 a1] a2] a3] a4].
  destruct (keys row_prev) as [[[[b0 b1] b2] b3] b4]. simpl.
  split.
  - intros Heq. repeat (apply andb_prop in Heq as [Heq ?]).
    repeat f_equal; lia.
  - intros [= -> -> -> -> ->]. by rewrite !Z.eqb_refl.
Qed.

Lemma all_keys_eq_false (row row_prev : Row) :
  all_keys_eq row row_prev = false ↔ keys row ≠ keys row_prev.
Proof.
  rewrite <- all_keys_eq_true.
  destruct (all_keys_eq row row_prev); naive_solver.
Qed.

(** Take an accepted sequence of checks apart into its accepted steps. *)
Ltac ok_inv :=
  repeat match goal with
  | Hb : (_ ≫= _) = Ok _ |- _ =>
      let Hm := fresh "Hstep" in apply bind_Ok in Hb as (? & Hm & Hb)
  | Ha : assert_in_range _ _ _ = Ok _ |- _ => apply assert_in_range_Ok in Ha
  | Ha : assert_ _ _ = Ok _ |- _ => apply assert_Ok in Ha
  | u : unit |- _ => destruct u
  end.

(** ** The scenarios of the specification, run on the definitions *)

(** 1. Start row, Memory write of 5, Memory read of 5: all accepted. *)
Example scenario_memory_write_read :
  @check_state_row bn128_externals (addressed_row 1 1 Tag.Memory 1 0 5)
    start_row (mkTables ∅) 7 = Ok tt ∧
  @check_state_row bn128_externals (addressed_row 2 0 Tag.Memory 1 0 5)
    (addressed_row 1 1 Tag.Memory 1 0 5) (mkTables ∅) 7 = Ok tt.
Proof. by vm_compute. Qed.

(** 2. A first read of memory that is not 0 is rejected. *)
Example scenario_memory_first_read :
  @check_state_row bn128_externals (addressed_row 1 0 Tag.Memory 1 3 7)
    start_row (mkTables ∅) 7
  = Raise (AssertionError "row.value == 0").
Proof. by vm_compute. Qed.

(** 3. A stack pointer that jumps from 5 to 7 is rejected. *)
Example scenario_stack_jump :
  @check_state_row bn128_externals (addressed_row 2 1 Tag.Stack 1 7 0)
    (addressed_row 1 1 Tag.Stack 1 5 0) (mkTables ∅) 7
  = Raise (AssertionError "min_val <= x.n and x.n <= max_val").
Proof. by vm_compute. Qed.

(** 4. A Storage write is accepted with its entry in the table and rejected
    when the entry carries another [value_prev]. *)
Example scenario_storage_lookup :
  @check_state_row bn128_externals (storage_row 5 1 1 10 9 0 1) start_row
    (mkTables {[ mkMPTTableRow 1 4 10 0 9 0 ]}) 7 = Ok tt ∧
  @check_state_row bn128_externals (storage_row 5 1 1 10 9 0 1) start_row
    (mkTables {[ mkMPTTableRow 1 4 10 0 9 5 ]}) 7
  = Raise (LookupUnsatFailure "MPTTableRow").
Proof. by vm_compute. Qed.

(** 5. Cumulative gas used (field tag 2) that goes down from transaction 1 to
    transaction 2 is rejected. *)
Example scenario_receipt_gas :
  @check_state_row bn128_externals (plain_row 9 1 Tag.TxReceipt 2 2 100 0)
    (plain_row 8 1 Tag.TxReceipt 1 2 150 0) (mkTables ∅) 7
  = Raise (AssertionError "row.value.n > row_prev.value.n").
Proof. by vm_compute. Qed.

(** 6. An Account read that differs from the write before it is rejected. *)
Example scenario_account_read :
  @check_state_row bn128_externals (account_row 8 0 10 2 99 50 4)
    (account_row 7 1 10 2 100 50 3) (mkTables ∅) 7
  = Raise (AssertionError "row.value == row_prev.value").
Proof. by vm_compute. Qed.

(** The builder and the projection on the sample trace. *)
Example sample_rows_built :
  @assign_state_circuit bn128_externals sample_ops 7 = Ok sample_rows.
Proof. by vm_compute. Qed.

Example sample_table_projected :
  @mpt_table_from_ops bn128_externals (inr sample_rows) 7 = Ok sample_table.
Proof. reflexivity. Qed.

(** The sample trace is accepted row by row, the Start row after the last
    row included. *)
Example sample_trace_accepted :
  let tables := mkTables sample_table in
  @check_state_row bn128_externals (storage_row 5 1 1 10 9 0 1) start_row
    tables 7 = Ok tt ∧
  @check_state_row bn128_externals (storage_row 6 0 1 10 9 0 2)
    (storage_row 5 1 1 10 9 0 1) tables 7 = Ok tt ∧
  @check_state_row bn128_externals (account_row 7 1 10 2 100 50 3)
    (storage_row 6 0 1 10 9 0 2) tables 7 = Ok tt ∧
  @check_state_row bn128_externals start_row (account_row 7 1 10 2 100 50 3)
    tables 7 = Ok tt.
Proof. by vm_compute. Qed.

(** ** Memory *)

(** C7: a Memory row that [check_memory] accepts has [field_tag] and
    [storage_key] 0; if its five keys differ from the previous row's and it is
    a read, its value is 0; its address is in [0, 2^32 - 1] and its value in
    [0, 255]. *)
Theorem check_memory_accepted (row row_prev : Row) :
  check_memory row row_prev = Ok tt →
  field_tag row = 0 ∧ storage_key row = 0 ∧
  (keys row ≠ keys row_prev → is_write row = 0 → value row = 0) ∧
  0 ≤ address row ≤ 2^32 - 1 ∧
  0 ≤ value row ≤ 255.
Proof.
  unfold check_memory, MAX_MEMORY_ADDRESS. intros Hok. ok_inv.
  repeat split; try lia.
  intros Hkeys%all_keys_eq_false Hread.
  rewrite Hkeys, Hread in Hstep1. simpl in Hstep1. ok_inv. lia.
Qed.

Lemma check_memory_accepted_witness :
  let row := addressed_row 1 0 Tag.Memory 1 3 0 in
  field_tag row = 0 ∧ storage_key row = 0 ∧ value row = 0 ∧
  0 ≤ address row ≤ 2^32 - 1 ∧ 0 ≤ value row ≤ 255.
Proof.
  intros row.
  destruct (check_memory_accepted row start_row)
    as (Hfield_tag & Hstorage_key & Hfirst & Haddress & Hvalue).
  - vm_compute. reflexivity.
  - split; [exact Hfield_tag|]. split; [exact Hstorage_key|].
    split; [apply Hfirst; vm_compute; congruence|].
    split; [exact Haddress | exact Hvalue].
Defined.

(** ** Stack *)

(** C6: a Stack row that [check_stack] accepts is a write if its five keys
    differ from the previous row's; its stack pointer is in [0, 1023]; and
    when its tag and id are the previous row's, the difference of the two
    stack pointers in the field is 0 or 1.  When the previous pointer is in
    range too, this is the integer statement: the pointer stays or moves up
    by one. *)
Theorem check_stack_accepted `{Externals} (row row_prev : Row) :
  check_stack row row_prev = Ok tt →
  (keys row ≠ keys row_prev → is_write row = 1) ∧
  0 ≤ address row ≤ 1023 ∧
  (tag row = tag row_prev → id_ row = id_ row_prev →
   (FQ_sub (address row) (address row_prev) = 0 ∨
    FQ_sub (address row) (address row_prev) = 1) ∧
   (MAX_STACK_PTR + 1 < field_modulus →
    0 ≤ address row_prev ≤ MAX_STACK_PTR →
    address row = address row_prev ∨ address row = address row_prev + 1)).
Proof.
  unfold check_stack, MAX_STACK_PTR. intros Hok. ok_inv.
  split; [|split; [lia|]].
  - intros Hkeys%all_keys_eq_false. rewrite Hkeys in Hstep1. simpl in Hstep1.
    ok_inv. lia.
  - intros Htag Hid. rewrite Htag, Hid, !Z.eqb_refl in Hok. simpl in Hok.
    ok_inv. split; [lia|].
    intros Hp Hprev. unfold FQ_sub in Hok.
    destruct (decide (address row_prev ≤ address row)) as [Hle|Hgt].
    + rewrite Z.mod_small in Hok by lia. lia.
    + exfalso.
      replace (address row - address row_prev)
        with (field_modulus - (address row_prev - address row)
              + (-1) * field_modulus) in Hok by lia.
      rewrite Z.mod_add, Z.mod_small in Hok by lia. lia.
Qed.

Lemma check_stack_accepted_witness :
  let row := addressed_row 2 1 Tag.Stack 1 6 0 in
  let row_prev := addressed_row 1 1 Tag.Stack 1 5 0 in
  is_write row = 1 ∧ 0 ≤ address row ≤ 1023 ∧
  (@FQ_sub bn128_externals (address row) (address row_prev) = 0 ∨
   @FQ_sub bn128_externals (address row) (address row_prev) = 1) ∧
  (address row = address row_prev ∨ address row = address row_prev + 1).
Proof.
  intros row row_prev.
  destruct (@check_stack_accepted bn128_externals row row_prev)
    as (Hwrite & Hrange & Hstep).
  - vm_compute. reflexivity.
  - destruct Hstep as [Hfield Hint]; [reflexivity | reflexivity |].
    split; [apply Hwrite; vm_compute; congruence|].
    split; [exact Hrange|]. split; [exact Hfield|].
    apply Hint; vm_compute; split; congruence.
Defined.

(** ** TxReceipt *)

(** C2, as the code has it: the transaction id of a row that
    [check_tx_receipt] accepts is in [1, 2^11] = [1, 2048], and a row whose
    transaction id is outside is rejected. *)
Theorem check_tx_receipt_id_range `{Externals} (row row_prev : Row) :
  (check_tx_receipt row row_prev = Ok tt → 1 ≤ id_ row ≤ 2048) ∧
  (¬ (1 ≤ id_ row ≤ 2048) → ∃ e, check_tx_receipt row row_prev = Raise e).
Proof.
  assert (Hacc : check_tx_receipt row row_prev = Ok tt → 1 ≤ id_ row ≤ 2048).
  { unfold check_tx_receipt. intros Hok. ok_inv. lia. }
  split; [done|]. intros Hout.
  destruct (result_unit_cases (check_tx_receipt row row_prev)) as [Hok|He];
    [|done].
  by destruct Hout; apply Hacc.
Qed.

Lemma check_tx_receipt_id_range_witness :
  1 ≤ id_ (plain_row 9 1 Tag.TxReceipt 2 3 0 0) ≤ 2048 ∧
  ∃ e, @check_tx_receipt bn128_externals
         (plain_row 9 1 Tag.TxReceipt 2049 3 0 0)
         (plain_row 8 1 Tag.TxReceipt 2048 3 0 0) = Raise e.
Proof.
  split.
  - apply (proj1 (@check_tx_receipt_id_range bn128_externals
                    (plain_row 9 1 Tag.TxReceipt 2 3 0 0)
                    (plain_row 8 1 Tag.TxReceipt 1 3 0 0))).
    vm_compute. reflexivity.
  - apply (proj2 (@check_tx_receipt_id_range bn128_externals
                    (plain_row 9 1 Tag.TxReceipt 2049 3 0 0)
                    (plain_row 8 1 Tag.TxReceipt 2048 3 0 0))).
    vm_compute. intros [_ Hle]. by apply Hle.
Defined.

(** C2 as stated fails: [check_tx_receipt] accepts the transaction id 2048,
    one above 2047, after a receipt row of transaction 2047 (with a value
    that is 0 or 1 and above the previous one, so whatever the field tag
    stands for). *)
Lemma check_tx_receipt_accepts_2048 :
  ¬ (∀ (E : Externals) (row row_prev : Row),
       (check_tx_receipt row row_prev = Ok tt → 1 ≤ id_ row ≤ 2047) ∧
       (¬ (1 ≤ id_ row ≤ 2047) → ∃ e, check_tx_receipt row row_prev = Raise e)).
Proof.
  intros Hclaim.
  destruct (Hclaim bn128_externals
              (plain_row 9 1 Tag.TxReceipt 2048 3 1 0)
              (plain_row 8 1 Tag.TxReceipt 2047 3 0 0)) as [Hacc _].
  assert (Hid : 1 ≤ 2048 ≤ 2047) by (apply Hacc; vm_compute; reflexivity).
  lia.
Qed.

(** ** Storage and Account: the MPT lookup *)

(** C3: [check_storage] accepts only if the table holds the entry with this
    row's [mpt_counter], target Storage, this row's address, storage key and
    value, and as [value_prev] the previous row's value when the five keys are
    the previous row's and this row's committed value otherwise;
    [check_account] likewise with the row's [field_tag] as target and key 0.
    Without that entry the row is rejected. *)
Theorem mpt_lookup_decides `{Externals} (row row_prev : Row) (tables : Tables) :
  let value_prev :=
    if decide (keys row = keys row_prev) then value row_prev else auxs row in
  let storage_entry :=
    mkMPTTableRow (mpt_counter row) (FQ_new MPTTableTag_Storage)
      (address row) (storage_key row) (value row) value_prev in
  let account_entry :=
    mkMPTTableRow (mpt_counter row) (field_tag row)
      (address row) 0 (value row) value_prev in
  (check_storage row row_prev tables = Ok tt →
   storage_entry ∈ mpt_table tables) ∧
  (storage_entry ∉ mpt_table tables →
   ∃ e, check_storage row row_prev tables = Raise e) ∧
  (check_account row row_prev tables = Ok tt →
   account_entry ∈ mpt_table tables) ∧
  (account_entry ∉ mpt_table tables →
   ∃ e, check_account row row_prev tables = Raise e).
Proof.
  intros value_prev storage_entry account_entry.
  assert (Hvp : (if all_keys_eq row row_prev then value row_prev else auxs row)
                = value_prev).
  { subst value_prev. destruct (all_keys_eq row row_prev) eqn:Hk.
    - apply all_keys_eq_true in Hk. by rewrite decide_True.
    - apply all_keys_eq_false in Hk. by rewrite decide_False. }
  assert (Hs : check_storage row row_prev tables = Ok tt →
               storage_entry ∈ mpt_table tables).
  { unfold check_storage, mpt_storage_lookup, lookup_. rewrite Hvp.
    intros Hok. ok_inv. fold storage_entry in Hstep1. by case_decide. }
  assert (Ha : check_account row row_prev tables = Ok tt →
               account_entry ∈ mpt_table tables).
  { unfold check_account, mpt_account_lookup, lookup_, FQ_new. rewrite Hvp.
    rewrite Zmod_0_l. intros Hok. ok_inv. fold account_entry in Hstep2.
    by case_decide. }
  split; [done|split; [|split; [done|]]].
  - intros Hmiss.
    destruct (result_unit_cases (check_storage row row_prev tables))
      as [Hok|He]; [|done]. by destruct Hmiss; apply Hs.
  - intros Hmiss.
    destruct (result_unit_cases (check_account row row_prev tables))
      as [Hok|He]; [|done]. by destruct Hmiss; apply Ha.
Qed.

Lemma mpt_lookup_decides_witness :
  let row := storage_row 5 1 1 10 9 0 1 in
  let entry value_prev := mkMPTTableRow 1 4 10 0 9 value_prev in
  entry 0 ∈ mpt_table (mkTables {[ entry 0 ]}) ∧
  ∃ e, @check_storage bn128_externals row start_row (mkTables {[ entry 5 ]})
       = Raise e.
Proof.
  intros row entry. split.
  - apply (proj1 (@mpt_lookup_decides bn128_externals row start_row
                    (mkTables {[ entry 0 ]}))).
    vm_compute. reflexivity.
  - apply (proj1 (proj2 (@mpt_lookup_decides bn128_externals row start_row
                           (mkTables {[ entry 5 ]})))).
    vm_compute. intros Hin. discriminate Hin.
Defined.

(** ** Rules of every row *)

(** C4: in a pair of rows that [check_state_row] accepts, a read whose five
    keys are the previous row's has the previous row's value. *)
Theorem read_consistency `{Externals} (row row_prev : Row) (tables : Tables)
    (randomness : FQ) :
  check_state_row row row_prev tables randomness = Ok tt →
  is_write row = 0 →
  keys row = keys row_prev →
  value row = value row_prev.
Proof.
  unfold check_state_row, check_all_rows.
  intros Hok Hread Hkeys%all_keys_eq_true. ok_inv.
  rewrite Hread, Hkeys in Hstep10. simpl in Hstep10. ok_inv. lia.
Qed.

Lemma read_consistency_witness :
  value (addressed_row 2 0 Tag.Memory 1 0 5)
  = value (addressed_row 1 1 Tag.Memory 1 0 5).
Proof.
  apply (@read_consistency bn128_externals
           (addressed_row 2 0 Tag.Memory 1 0 5)
           (addressed_row 1 1 Tag.Memory 1 0 5) (mkTables ∅) 7);
    vm_compute; reflexivity.
Defined.

(** C5, as the code has it: in a pair of rows that [check_state_row] accepts,
    the [mpt_counter] is the previous row's plus 1 (in the field) when the tag
    is Storage or Account, the previous row's when the tag is any other than
    Start, and 0 when the tag is Start. *)
Theorem mpt_counter_step `{Externals} (row row_prev : Row) (tables : Tables)
    (randomness : FQ) :
  check_state_row row row_prev tables randomness = Ok tt →
  (tag row = Tag.Storage ∨ tag row = Tag.Account →
   mpt_counter row = FQ_add (mpt_counter row_prev) 1) ∧
  (tag row ≠ Tag.Start → tag row ≠ Tag.Storage → tag row ≠ Tag.Account →
   mpt_counter row = mpt_counter row_prev) ∧
  (tag row = Tag.Start → mpt_counter row = 0).
Proof.
  unfold check_state_row, check_all_rows. intros Hok. ok_inv.
  split; [|split].
  - intros Htag.
    assert (Hsa : (tag row =? Tag.Storage) || (tag row =? Tag.Account) = true)
      by (destruct Htag as [-> | ->]; reflexivity).
    assert (Hns : (tag row =? Tag.Start) = false)
      by (destruct Htag as [-> | ->]; reflexivity).
    rewrite Hns, Hsa in Hstep11. simpl in Hstep11. ok_inv. lia.
  - intros Hns%Z.eqb_neq Hst%Z.eqb_neq Hac%Z.eqb_neq.
    rewrite Hns, Hst, Hac in Hstep11. simpl in Hstep11. ok_inv. lia.
  - intros Htag. unfold check_by_tag, check_start in Hok.
    rewrite Htag in Hok. simpl in Hok. ok_inv. lia.
Qed.

Lemma mpt_counter_step_witness :
  mpt_counter (storage_row 5 1 1 10 9 0 1)
  = @FQ_add bn128_externals (mpt_counter start_row) 1 ∧
  mpt_counter (addressed_row 1 1 Tag.Memory 1 0 5) = mpt_counter start_row ∧
  mpt_counter start_row = 0.
Proof.
  split; [|split].
  - destruct (@mpt_counter_step bn128_externals (storage_row 5 1 1 10 9 0 1)
                start_row (mkTables {[ mkMPTTableRow 1 4 10 0 9 0 ]}) 7)
      as (Hinc & _ & _); [vm_compute; reflexivity|].
    apply Hinc. left. reflexivity.
  - destruct (@mpt_counter_step bn128_externals
                (addressed_row 1 1 Tag.Memory 1 0 5) start_row (mkTables ∅) 7)
      as (_ & Hsame & _); [vm_compute; reflexivity|].
    apply Hsame; vm_compute; discriminate.
  - destruct (@mpt_counter_step bn128_externals start_row
                (storage_row 5 1 1 10 9 0 1) (mkTables ∅) 7)
      as (_ & _ & Hstart); [vm_compute; reflexivity|].
    apply Hstart. reflexivity.
Defined.

(** C5 as stated fails for Start: a Start row after a Storage row of
    [mpt_counter] 1 is accepted with [mpt_counter] 0. *)
Lemma start_row_resets_mpt_counter :
  ¬ (∀ (E : Externals) (row row_prev : Row) (tables : Tables) (randomness : FQ),
       check_state_row row row_prev tables randomness = Ok tt →
       (tag row = Tag.Storage ∨ tag row = Tag.Account →
        mpt_counter row = FQ_add (mpt_counter row_prev) 1) ∧
       (tag row ≠ Tag.Storage → tag row ≠ Tag.Account →
        mpt_counter row = mpt_counter row_prev)).
Proof.
  intros Hclaim.
  destruct (Hclaim bn128_externals start_row (storage_row 5 1 1 10 9 0 1)
              (mkTables ∅) 7) as [_ Hsame]; [vm_compute; reflexivity|].
  by specialize (Hsame ltac:(done) ltac:(done)).
Qed.

(** ** Dispatch *)

Lemma Tag_value_inj (t1 t2 : Tag.t) : Tag.value t1 = Tag.value t2 → t1 = t2.
Proof. by destruct t1, t2. Qed.

Lemma Tag_value_range (t : Tag.t) : 1 ≤ Tag.value t ≤ MAX_TAG.
Proof. unfold MAX_TAG. destruct t; simpl; lia. Qed.

Lemma Tag_of_range (n : Z) : 1 ≤ n ≤ MAX_TAG → ∃ t : Tag.t, n = Tag.value t.
Proof.
  unfold MAX_TAG. intros Hn.
  assert (Hcases : n = 1 ∨ n = 2 ∨ n = 3 ∨ n = 4 ∨ n = 5 ∨ n = 6 ∨ n = 7 ∨
                   n = 8 ∨ n = 9 ∨ n = 10 ∨ n = 11 ∨ n = 12) by lia.
  destruct_or!; subst n;
    [ by exists Tag.Start | by exists Tag.Memory | by exists Tag.Stack
    | by exists Tag.Storage | by exists Tag.CallContext | by exists Tag.Account
    | by exists Tag.TxRefund | by exists Tag.TxAccessListAccount
    | by exists Tag.TxAccessListAccountStorage
    | by exists Tag.AccountDestructed | by exists Tag.TxLog
    | by exists Tag.TxReceipt ].
Qed.

(** The chain of comparisons selects the checker of the row's tag. *)
Lemma check_by_tag_selects `{Externals} (t : Tag.t) (row row_prev : Row)
    (tables : Tables) :
  tag row = Tag.value t →
  check_by_tag row row_prev tables = per_tag_check t row row_prev tables.
Proof. unfold check_by_tag. intros ->. by destruct t. Qed.

(** No per-tag checker raises a [ValueError]. *)
Lemma per_tag_check_no_ValueError `{Externals} (t : Tag.t) (row row_prev : Row)
    (tables : Tables) (msg : string) :
  per_tag_check t row row_prev tables ≠ Raise (ValueError msg).
Proof.
  destruct t; simpl;
    unfold check_start, check_memory, check_stack, check_storage,
      check_call_context, check_account, check_tx_refund,
      check_tx_access_list_account, check_tx_access_list_account_storage,
      check_account_destructed, check_tx_log, check_tx_receipt,
      mpt_storage_lookup, mpt_account_lookup, lookup_,
      assert_in_range, assert_;
    repeat (case_match; simpl); congruence.
Qed.

(** C10: when the rules of every row pass, so that the tag is in [1, 12], the
    dispatch of [check_state_row] runs the checker of exactly one of the
    twelve tags, the row's, and does not reach the final
    [raise ValueError("Unreacheable")]. *)
Theorem dispatch_total `{Externals} (row row_prev : Row) (tables : Tables)
    (randomness : FQ) :
  check_all_rows row row_prev randomness = Ok tt →
  (exists ! t : Tag.t,
     tag row = Tag.value t ∧
     check_by_tag row row_prev tables = per_tag_check t row row_prev tables) ∧
  check_by_tag row row_prev tables ≠ Raise (ValueError "Unreacheable") ∧
  check_state_row row row_prev tables randomness
    = check_by_tag row row_prev tables.
Proof.
  intros Hall.
  assert (Htag : 1 ≤ tag row ≤ MAX_TAG).
  { unfold check_all_rows in Hall. ok_inv. done. }
  destruct (Tag_of_range _ Htag) as [t Ht].
  split; [|split].
  - exists t. split.
    + split; [done|]. by apply check_by_tag_selects.
    + intros t' [Ht' _]. apply Tag_value_inj. congruence.
  - rewrite (check_by_tag_selects t) by done. apply per_tag_check_no_ValueError.
  - unfold check_state_row. by rewrite Hall.
Qed.

Lemma dispatch_total_witness :
  let row := addressed_row 1 1 Tag.Memory 1 0 5 in
  (exists ! t : Tag.t,
     tag row = Tag.value t ∧
     @check_by_tag bn128_externals row start_row (mkTables ∅)
     = @per_tag_check bn128_externals t row start_row (mkTables ∅)) ∧
  @check_by_tag bn128_externals row start_row (mkTables ∅)
    ≠ Raise (ValueError "Unreacheable") ∧
  @check_state_row bn128_externals row start_row (mkTables ∅) 7
    = @check_by_tag bn128_externals row start_row (mkTables ∅).
Proof.
  intros row.
  apply (@dispatch_total bn128_externals row start_row (mkTables ∅) 7).
  vm_compute. reflexivity.
Defined.

(** ** The order of the rows *)

Section Comparator.
Context `{Externals}.
Hypothesis modulus_above_limbs : 2^16 ≤ field_modulus.

(** [limbs_of] cuts the low [16 * n] bits of [v] into [n] limbs of 16 bits. *)
Lemma limbs_of_length (n : nat) (v : Z) : length (limbs_of n v) = n.
Proof.
  revert v. induction n as [|n IH]; intros v; simpl; [done|]. by rewrite IH.
Qed.

Lemma limb_of (v : Z) : FQ_new (Z.land v 0xFFFF) = v mod 2^16.
Proof.
  change 0xFFFF with (Z.ones 16). rewrite Z.land_ones by lia.
  unfold FQ_new. apply Z.mod_small.
  pose proof (Z.mod_pos_bound v (2^16)). lia.
Qed.

Lemma limbs_of_range (n : nat) (v : Z) :
  Forall (λ limb, 0 ≤ limb < 2^16) (limbs_of n v).
Proof.
  revert v. induction n as [|n IH]; intros v; simpl; constructor; [|done].
  rewrite limb_of. apply Z.mod_pos_bound. lia.
Qed.

Lemma limbs_of_le_value (n : nat) (v : Z) :
  le_value (limbs_of n v) = v mod 2^(16 * Z.of_nat n).
Proof.
  revert v. induction n as [|n IH]; intros v.
  - simpl. by rewrite Z.mod_1_r.
  - simpl limbs_of. unfold le_value. simpl foldr.
    fold (le_value (limbs_of n (Z.shiftr v 16))).
    rewrite IH, limb_of, Z.shiftr_div_pow2 by lia.
    replace (16 * Z.of_nat (S n)) with (16 + 16 * Z.of_nat n) by lia.
    rewrite Z.pow_add_r by lia.
    rewrite Z.rem_mul_r by lia. done.
Qed.

(** Two little-endian limb sequences of one length compare as their limbs
    do from the most significant one down. *)
Lemma le_value_cons_lt (l r : Z) (V W : Z) :
  0 ≤ l < 2^16 → 0 ≤ r < 2^16 →
  (l + 2^16 * V < r + 2^16 * W ↔ V < W ∨ (V = W ∧ l < r)) ∧
  (l + 2^16 * V = r + 2^16 * W ↔ V = W ∧ l = r).
Proof. lia. Qed.

(** The loop of [verify]: with [lt] the comparison of the limbs below, it
    returns the comparison of the whole. *)
Lemma verify_loop_le_value (lhs : list FQ) :
  ∀ (rhs : list FQ) (lt : bool),
    length lhs = length rhs →
    Forall (λ limb, 0 ≤ limb < 2^16) lhs →
    Forall (λ limb, 0 ≤ limb < 2^16) rhs →
    verify_loop lt lhs rhs
    = Ok (bool_decide (le_value lhs < le_value rhs)
          || (bool_decide (le_value lhs = le_value rhs) && lt)).
Proof.
  induction lhs as [|l lhs IH]; intros [|r rhs] lt Hlen Hl Hr;
    try discriminate Hlen.
  - simpl. by destruct lt.
  - apply Forall_cons in Hl as [Hl0 Hl]. apply Forall_cons in Hr as [Hr0 Hr].
    simpl in Hlen. simpl verify_loop. rewrite IH by (done || lia).
    f_equal. unfold le_value at 3 4 5 6. simpl foldr.
    fold (le_value lhs). fold (le_value rhs).
    destruct (le_value_cons_lt l r (le_value lhs) (le_value rhs) Hl0 Hr0)
      as [Hlt Heq].
    apply eq_true_iff_eq.
    rewrite !orb_true_iff, !andb_true_iff, !orb_true_iff, !andb_true_iff,
      !bool_decide_eq_true, Z.ltb_lt, Z.eqb_eq.
    rewrite Hlt, Heq. tauto.
Qed.

(** [verify] accepts exactly when the left sequence stands for the smaller
    integer. *)
Lemma verify_le_value (ls rs : list FQ) :
  ls ≠ [] →
  length ls = length rs →
  Forall (λ limb, 0 ≤ limb < 2^16) ls →
  Forall (λ limb, 0 ≤ limb < 2^16) rs →
  verify (mkLowerThanGadget ls rs) = Ok tt ↔ le_value ls < le_value rs.
Proof.
  intros Hne Hlen Hl Hr.
  pose proof (verify_loop_le_value ls rs false Hlen Hl Hr) as Hloop.
  destruct ls as [|l0 ls]; [done|]. destruct rs as [|r0 rs]; [done|].
  simpl verify_loop in Hloop.
  rewrite !andb_false_r, !orb_false_r in Hloop.
  unfold verify. cbn [lhs rhs]. rewrite Hloop.
  cbn [mbind result_bind]. unfold assert_.
  case_bool_decide; split; (done || discriminate).
Qed.

Lemma bits_values :
  TAG_BITS = 4 ∧ ID_BITS = 28 ∧ ADDRESS_BITS = 160 ∧ FIELD_TAG_BITS = 5 ∧
  RW_COUNTER_BITS = 32.
Proof. by vm_compute. Qed.

Lemma within_bit_widths_true (row : Row) :
  within_bit_widths row = true →
  0 ≤ tag row < 2^4 ∧ 0 ≤ id_ row < 2^28 ∧ 0 ≤ address row < 2^160 ∧
  0 ≤ field_tag row < 2^5 ∧ length (storage_key_bytes row) = 32%nat ∧
  Forall (λ b, 0 ≤ b < 2^8) (storage_key_bytes row) ∧
  0 ≤ rw_counter row < 2^32.
Proof.
  unfold within_bit_widths.
  destruct bits_values as (-> & -> & -> & -> & ->).
  rewrite !andb_true_iff, !bool_decide_eq_true, forallb_forall.
  intros [[[[[[? ?] ?] ?] ?] Hbytes] ?]. repeat split; try lia.
  apply Forall_forall. intros b Hb%list_elem_of_In%Hbytes.
  by apply bool_decide_eq_true in Hb.
Qed.

Lemma int_from_bytes_little_Ok (bs : list Z) :
  Forall (λ b, 0 ≤ b < 2^8) bs →
  int_from_bytes_little bs = Ok (foldr (λ b acc, b + 256 * acc) 0 bs).
Proof.
  intros Hbs. unfold int_from_bytes_little.
  assert (Hfor : for_each
            (λ b, if bool_decide (0 ≤ b < 256) then Ok tt
                  else Raise (ValueError "bytes must be in range(0, 256)")) bs
          = Ok tt).
  { induction Hbs as [|b bs Hb _ IH]; [done|]. simpl.
    rewrite bool_decide_eq_true_2 by lia. exact IH. }
  by rewrite Hfor.
Qed.

Lemma bytes_value_bound (bs : list Z) :
  Forall (λ b, 0 ≤ b < 2^8) bs →
  0 ≤ foldr (λ b acc, b + 256 * acc) 0 bs < 256 ^ Z.of_nat (length bs).
Proof.
  induction 1 as [|b bs Hb _ IH]; [simpl; lia|].
  simpl foldr. simpl length. rewrite Nat2Z.inj_succ, Z.pow_succ_r by lia. lia.
Qed.

(** For a row within its bit widths the limbs are those of the packed
    integer, which is below 2^(16 * 31). *)
Lemma keys_rwc_to_limbs_in_order_packed (row : Row) :
  within_bit_widths row = true →
  keys_rwc_to_limbs_in_order row = Ok (limbs_of 31 (packed_keys_rwc row)) ∧
  0 ≤ packed_keys_rwc row < 2^(16 * 31).
Proof.
  intros (Htag & Hid & Haddr & Hft & Hlen & Hbytes & Hrwc)%within_bit_widths_true.
  split.
  - unfold keys_rwc_to_limbs_in_order.
    by rewrite (int_from_bytes_little_Ok _ Hbytes).
  - pose proof (bytes_value_bound _ Hbytes) as Hkey. rewrite Hlen in Hkey.
    fold (storage_key_int row) in Hkey. unfold packed_keys_rwc.
    destruct bits_values as (_ & -> & -> & _ & ->).
    change (256 ^ Z.of_nat 32) with (2^256) in Hkey. lia.
Qed.

Lemma check_keys_rwc_order_packed (row row_prev : Row) :
  within_bit_widths row = true →
  within_bit_widths row_prev = true →
  tag row ≠ Tag.Start →
  check_keys_rwc_order row row_prev = Ok tt ↔
  packed_keys_rwc row_prev < packed_keys_rwc row.
Proof.
  intros [Hlimbs Hpacked]%keys_rwc_to_limbs_in_order_packed
         [Hlimbs_prev Hpacked_prev]%keys_rwc_to_limbs_in_order_packed
         Hstart%Z.eqb_neq.
  unfold check_keys_rwc_order. rewrite Hlimbs, Hlimbs_prev, Hstart.
  assert (Hbits : (TAG_BITS + ID_BITS =? 2 * 16) = true) by by vm_compute.
  rewrite Hbits. cbn [assert_ mbind result_bind negb].
  rewrite verify_le_value.
  - rewrite !limbs_of_le_value.
    change (16 * Z.of_nat 31) with (16 * 31).
    by rewrite !Z.mod_small by lia.
  - done.
  - by rewrite !limbs_of_length.
  - apply limbs_of_range.
  - apply limbs_of_range.
Qed.

(** What the ordering check decides: for rows within their bit widths, other
    than a Start row, it accepts exactly when the packed integer of the
    previous row is below that of the row. *)
Theorem order_check_compares_packed (row row_prev : Row) :
  within_bit_widths row = true →
  within_bit_widths row_prev = true →
  tag row ≠ Tag.Start →
  check_keys_rwc_order row row_prev = Ok tt ↔
  packed_keys_rwc row_prev < packed_keys_rwc row.
Proof.
  intros [Hlimbs Hpacked]%keys_rwc_to_limbs_in_order_packed
         [Hlimbs_prev Hpacked_prev]%keys_rwc_to_limbs_in_order_packed
         Hstart%Z.eqb_neq.
  unfold check_keys_rwc_order. rewrite Hlimbs, Hlimbs_prev, Hstart.
  assert (Hbits : (TAG_BITS + ID_BITS =? 2 * 16) = true) by by vm_compute.
  rewrite Hbits. cbn [assert_ mbind result_bind negb].
  rewrite verify_le_value.
  - rewrite !limbs_of_le_value.
    change (16 * Z.of_nat 31) with (16 * 31).
    by rewrite !Z.mod_small by lia.
  - done.
  - by rewrite !limbs_of_length.
  - apply limbs_of_range.
  - apply limbs_of_range.
Qed.

Lemma check_keys_rwc_order_lex (row row_prev : Row) :
  within_bit_widths row = true →
  within_bit_widths row_prev = true →
  storage_key_int row < 2^32 →
  storage_key_int row_prev < 2^32 →
  tag row ≠ Tag.Start →
  check_keys_rwc_order row row_prev = Ok tt ↔
  lex_lt (composite_key row_prev) (composite_key row) = true.
Proof.
  intros Hw Hw_prev Hkey Hkey_prev Hstart.
  rewrite check_keys_rwc_order_packed by done.
  apply within_bit_widths_true in Hw
    as (Htag & Hid & Haddr & Hft & Hlen & Hbytes & Hrwc).
  apply within_bit_widths_true in Hw_prev
    as (Htag' & Hid' & Haddr' & Hft' & Hlen' & Hbytes' & Hrwc').
  pose proof (bytes_value_bound _ Hbytes) as Hk.
  pose proof (bytes_value_bound _ Hbytes') as Hk'.
  fold (storage_key_int row) in Hk. fold (storage_key_int row_prev) in Hk'.
  unfold packed_keys_rwc, composite_key, lex_lt.
  destruct bits_values as (_ & -> & -> & _ & ->).
  rewrite !orb_true_iff, !andb_true_iff, !orb_true_iff, !andb_true_iff,
    !orb_true_iff, !andb_true_iff, !orb_true_iff, !andb_true_iff,
    !orb_true_iff, !andb_true_iff, !Z.ltb_lt, !Z.eqb_eq.
  lia.
Qed.

(** With storage keys that fit the 32 bits of their slot, the packed order
    is the lexicographic order of the composite keys. *)
Theorem order_check_lexicographic_short_keys (row row_prev : Row) :
  within_bit_widths row = true →
  within_bit_widths row_prev = true →
  storage_key_int row < 2^32 →
  storage_key_int row_prev < 2^32 →
  tag row ≠ Tag.Start →
  check_keys_rwc_order row row_prev = Ok tt ↔
  lex_lt (composite_key row_prev) (composite_key row) = true.
Proof.
  intros Hw Hw_prev Hkey Hkey_prev Hstart.
  rewrite check_keys_rwc_order_packed by done.
  apply within_bit_widths_true in Hw
    as (Htag & Hid & Haddr & Hft & Hlen & Hbytes & Hrwc).
  apply within_bit_widths_true in Hw_prev
    as (Htag' & Hid' & Haddr' & Hft' & Hlen' & Hbytes' & Hrwc').
  pose proof (bytes_value_bound _ Hbytes) as Hk.
  pose proof (bytes_value_bound _ Hbytes') as Hk'.
  fold (storage_key_int row) in Hk. fold (storage_key_int row_prev) in Hk'.
  unfold packed_keys_rwc, composite_key, lex_lt.
  destruct bits_values as (_ & -> & -> & _ & ->).
  rewrite !orb_true_iff, !andb_true_iff, !orb_true_iff, !andb_true_iff,
    !orb_true_iff, !andb_true_iff, !orb_true_iff, !andb_true_iff,
    !orb_true_iff, !andb_true_iff, !Z.ltb_lt, !Z.eqb_eq.
  lia.
Qed.

End Comparator.

(** C1 fails on the code: the storage key, 256 bits wide, is packed into a
    slot of 32 bits ([v * (2**32)], where the source's comment counts 16
    limbs), so its upper bits add into the field tag and the address.  On
    rows as the builder makes them of two Storage operations, every field
    within its bit width:
    - the Storage row of address 0 and storage key 2^49 is accepted after the
      Storage row of address 1 and storage key 0, by the ordering check and
      by the whole of [check_state_row], though its composite key is the
      smaller one;
    - in the sorted order of the same two keys the ordering check rejects. *)
Theorem order_check_not_lexicographic :
  let low := storage_row_key_2_49 6 0 7 3 2 in
  let high := storage_row 5 1 1 1 9 0 1 in
  let low' := storage_row_key_2_49 5 0 7 3 1 in
  let high' := storage_row 6 1 1 1 9 0 2 in
  let tables := mkTables {[ mkMPTTableRow 2 4 0 (2 * 7^6) 7 3 ]} in
  @assign_state_circuit bn128_externals
    [StorageOp 5 1 1 1 0 9 0; StorageOp 6 1 1 0 (2^49) 7 3] 7
  = Ok [high; low] ∧
  (within_bit_widths low && within_bit_widths high
   && within_bit_widths low' && within_bit_widths high' = true) ∧
  lex_lt (composite_key low) (composite_key high) = true ∧
  lex_lt (composite_key high) (composite_key low) = false ∧
  @check_keys_rwc_order bn128_externals low high = Ok tt ∧
  @check_state_row bn128_externals low high tables 7 = Ok tt ∧
  lex_lt (composite_key low') (composite_key high') = true ∧
  @check_keys_rwc_order bn128_externals high' low' = Raise (AssertionError "lt").
Proof. by vm_compute. Qed.

(** ** Builder, projection and validator *)

Section Coherence.
Context `{Externals}.
Hypothesis modulus_above_tags : MAX_TAG < field_modulus.

Lemma FQ_new_tag (t : Tag.t) : FQ_new (Tag.value t) = Tag.value t.
Proof.
  unfold FQ_new. pose proof (Tag_value_range t). apply Z.mod_small. lia.
Qed.

Lemma FQ_add_count (n : nat) :
  FQ_add (FQ_new (Z.of_nat n)) 1 = FQ_new (Z.of_nat (S n)).
Proof.
  unfold FQ_add, FQ_new. rewrite Zplus_mod_idemp_l. f_equal. lia.
Qed.

(** What one call of [op2row] returns. *)
Lemma op2row_Ok (a a' : Assigner) (op : Operation) (randomness : FQ) (row : Row) :
  op2row a op randomness = Ok (row, a') →
  tag row = FQ_new (op_tag op) ∧
  mpt_counter row = Assigner_mpt_counter a' ∧
  Assigner_mpt_counter a'
  = if is_mpt_op op then FQ_add (Assigner_mpt_counter a) 1
    else Assigner_mpt_counter a.
Proof.
  unfold op2row. intros Hok.
  apply bind_Ok in Hok as (address_bytes & _ & Hok).
  apply bind_Ok in Hok as (rlc & _ & Hok).
  injection Hok as <- <-. simpl.
  split; [done|split; [done|]].
  unfold is_mpt_op.
  change (FQ_new 4) with (FQ_new Tag.Storage).
  change (FQ_new 6) with (FQ_new Tag.Account).
  rewrite (FQ_new_tag Tag.Storage), (FQ_new_tag Tag.Account).
  destruct (FQ_new (op_tag op) =? Tag.Storage) eqn:Hs.
  { apply Z.eqb_eq in Hs. rewrite bool_decide_eq_true_2 by auto. done. }
  destruct (FQ_new (op_tag op) =? Tag.Account) eqn:Ha.
  { apply Z.eqb_eq in Ha. rewrite bool_decide_eq_true_2 by auto. done. }
  apply Z.eqb_neq in Hs, Ha. rewrite bool_decide_eq_false_2 by tauto. done.
Qed.

(** The builder stamps each row with the number of operations of
    [mpt_counter] so far, this one included. *)
Lemma op2row_each_mpt_counter (ops : list Operation) (randomness : FQ) :
  ∀ (a : Assigner) (n : nat) (rows : list Row) (idx : nat) (row : Row),
    Assigner_mpt_counter a = FQ_new (Z.of_nat n) →
    op2row_each a ops randomness = Ok rows →
    rows !! idx = Some row →
    mpt_counter row
    = FQ_new (Z.of_nat (n + length (filter is_mpt_op (take (S idx) ops)))).
Proof.
  induction ops as [|op ops IH]; intros a n rows idx row Ha Hok Hrow.
  - simpl in Hok. injection Hok as <-. done.
  - simpl in Hok.
    apply bind_Ok in Hok as ([row0 a'] & Hop & Hok).
    apply bind_Ok in Hok as (rows' & Hrest & Hok).
    injection Hok as <-.
    apply op2row_Ok in Hop as (_ & Hc & Ha').
    assert (Hn' : Assigner_mpt_counter a'
                  = FQ_new (Z.of_nat (n + length (filter is_mpt_op [op])))).
    { rewrite Ha', Ha. simpl. unfold filter, list_filter.
      destruct (decide (is_mpt_op op)) as [Hm|Hm].
      - apply Is_true_true in Hm. rewrite Hm. simpl length.
        rewrite FQ_add_count. f_equal. lia.
      - apply Is_true_false in Hm. rewrite Hm. simpl length.
        f_equal. lia. }
    destruct idx as [|idx].
    + injection Hrow as <-. rewrite Hc, Hn'. reflexivity.
    + simpl in Hrow.
      rewrite (IH a' _ rows' idx row Hn' Hrest Hrow).
      change (take (S (S idx)) (op :: ops)) with ([op] ++ take (S idx) ops).
      rewrite filter_app, length_app. f_equal. lia.
Qed.

(** The entries of the projection: those the loop appends at some row. *)
Lemma mpt_table_from_rows_elem (rows : list Row) (randomness : FQ)
    (table : gset MPTTableRow) (idx : nat) (row : Row) (entry : MPTTableRow) :
  mpt_table_from_ops (inr rows) randomness = Ok table →
  rows !! idx = Some row →
  entry ∈ mpt_rows_at rows idx row →
  entry ∈ table.
Proof.
  unfold mpt_table_from_ops. intros Hok Hrow Hentry.
  apply bind_Ok in Hok as (rows' & Hrows & Hok).
  assert (rows' = rows) as -> by (destruct rows; [done|congruence]).
  injection Hok as <-.
  apply elem_of_list_to_set, list_elem_of_join.
  exists (mpt_rows_at rows idx row). split; [done|].
  apply elem_of_lookup_imap. eauto.
Qed.

(** The rows the projection appends at a row carry the [value_prev] the
    validator queries with, the validator's previous row being the row before
    in the sequence, or for the first row any row of other keys. *)
Lemma mpt_rows_at_prev (rows : list Row) (idx : nat) (row row_prev : Row) :
  match idx with
  | O => keys row ≠ keys row_prev
  | S idx_prev => rows !! idx_prev = Some row_prev
  end →
  mpt_rows_at rows idx row
  = let value_prev :=
      if all_keys_eq row row_prev then value row_prev else auxs row in
    if tag row =? FQ_new Tag.Storage
    then [mkMPTTableRow (mpt_counter row) (FQ_new MPTTableTag_Storage)
            (address row) (storage_key row) (value row) value_prev]
    else if tag row =? FQ_new Tag.Account
    then [mkMPTTableRow (mpt_counter row) (field_tag row)
            (address row) (storage_key row) (value row) value_prev]
    else [].
Proof.
  intros Hprev. unfold mpt_rows_at. destruct idx as [|idx_prev].
  - apply all_keys_eq_false in Hprev. by rewrite Hprev.
  - by rewrite Hprev.
Qed.

Lemma check_storage_lookup_found (row row_prev : Row) (tables : Tables)
    (name : string) :
  mkMPTTableRow (mpt_counter row) (FQ_new MPTTableTag_Storage) (address row)
    (storage_key row) (value row)
    (if all_keys_eq row row_prev then value row_prev else auxs row)
    ∈ mpt_table tables →
  check_storage row row_prev tables ≠ Raise (LookupUnsatFailure name).
Proof.
  intros Hin. unfold check_storage, mpt_storage_lookup, lookup_, assert_.
  rewrite decide_True by done.
  repeat (case_match; simpl); congruence.
Qed.

Lemma check_account_lookup_found (row row_prev : Row) (tables : Tables)
    (name : string) :
  mkMPTTableRow (mpt_counter row) (field_tag row) (address row)
    (storage_key row) (value row)
    (if all_keys_eq row row_prev then value row_prev else auxs row)
    ∈ mpt_table tables →
  check_account row row_prev tables ≠ Raise (LookupUnsatFailure name).
Proof.
  intros Hin. unfold check_account, mpt_account_lookup, lookup_, assert_.
  destruct (id_ row =? 0); simpl; [|congruence].
  destruct (storage_key row =? 0) eqn:Hkey; simpl; [|congruence].
  apply Z.eqb_eq in Hkey. rewrite Hkey in Hin.
  unfold FQ_new. rewrite Zmod_0_l, decide_True by done.
  repeat (case_match; simpl); congruence.
Qed.

End Coherence.

(** C9: for the rows the builder makes of a list of operations and the table
    projected from these rows, at every row, with the row before it as the
    previous row (for the first row, any row of other keys, such as the Start
    row):
    - the row's [mpt_counter] is the number of Storage and Account operations
      up to and including its own;
    - if the row is a Storage row, the table holds the entry that
      [check_storage] looks up, the lookup returns it, and [check_storage]
      does not fail on the lookup;
    - if the row is an Account row, the table holds the entry of the row,
      the lookup of [check_account] returns it once the storage key is 0 as
      [check_account] asks first, and [check_account] does not fail on the
      lookup. *)
Theorem builder_projection_validator_coherent `{Externals}
    (ops : list Operation) (randomness : FQ) (rows : list Row)
    (table : gset MPTTableRow) (idx : nat) (row row_prev : Row) :
  MAX_TAG < field_modulus →
  assign_state_circuit ops randomness = Ok rows →
  mpt_table_from_ops (inr rows) randomness = Ok table →
  rows !! idx = Some row →
  match idx with
  | O => keys row ≠ keys row_prev
  | S idx_prev => rows !! idx_prev = Some row_prev
  end →
  let tables := mkTables table in
  let value_prev :=
    if all_keys_eq row row_prev then value row_prev else auxs row in
  let storage_entry :=
    mkMPTTableRow (mpt_counter row) (FQ_new MPTTableTag_Storage)
      (address row) (storage_key row) (value row) value_prev in
  let account_entry :=
    mkMPTTableRow (mpt_counter row) (field_tag row)
      (address row) (storage_key row) (value row) value_prev in
  mpt_counter row
  = FQ_new (Z.of_nat (length (filter is_mpt_op (take (S idx) ops)))) ∧
  (tag row = Tag.Storage →
   storage_entry ∈ table ∧
   mpt_storage_lookup tables (mpt_counter row) (address row)
     (storage_key row) (value row) value_prev = Ok storage_entry ∧
   ∀ name, check_storage row row_prev tables ≠ Raise (LookupUnsatFailure name)) ∧
  (tag row = Tag.Account →
   account_entry ∈ table ∧
   (storage_key row = 0 →
    mpt_account_lookup tables (mpt_counter row) (field_tag row)
      (address row) (value row) value_prev = Ok account_entry) ∧
   ∀ name, check_account row row_prev tables ≠ Raise (LookupUnsatFailure name)).
Proof.
  intros Hp Hrows Htable Hrow Hprev tables value_prev storage_entry
    account_entry.
  pose proof (mpt_rows_at_prev rows idx row row_prev Hprev) as Hat.
  cbv zeta in Hat. fold value_prev in Hat.
  split; [|split].
  - apply (op2row_each_mpt_counter Hp ops randomness Assigner_init 0 rows
             idx row); done.
  - intros Htag.
    assert (Hin : storage_entry ∈ table).
    { apply (mpt_table_from_rows_elem rows randomness table idx row); try done.
      rewrite Hat, Htag, (FQ_new_tag Hp Tag.Storage), Z.eqb_refl.
      by apply list_elem_of_singleton. }
    split; [done|split].
    + unfold mpt_storage_lookup, lookup_. by rewrite decide_True.
    + intros name. by apply check_storage_lookup_found.
  - intros Htag.
    assert (Hin : account_entry ∈ table).
    { apply (mpt_table_from_rows_elem rows randomness table idx row); try done.
      rewrite Hat, Htag, (FQ_new_tag Hp Tag.Storage),
        (FQ_new_tag Hp Tag.Account).
      by apply list_elem_of_singleton. }
    split; [done|split].
    + intros Hkey. unfold mpt_account_lookup, lookup_, FQ_new.
      rewrite Zmod_0_l. subst account_entry. rewrite Hkey in Hin.
      rewrite Hkey. by rewrite decide_True.
    + intros name. by apply check_account_lookup_found.
Qed.

Lemma builder_projection_validator_coherent_witness :
  let row := storage_row 6 0 1 10 9 0 2 in
  let row_prev := storage_row 5 1 1 10 9 0 1 in
  mpt_counter row = 2 ∧
  mkMPTTableRow 2 4 10 0 9 9 ∈ sample_table ∧
  ∀ name, @check_storage bn128_externals row row_prev (mkTables sample_table)
          ≠ Raise (LookupUnsatFailure name).
Proof.
  intros row row_prev.
  destruct (@builder_projection_validator_coherent bn128_externals
              sample_ops 7 sample_rows sample_table 2 row row_prev)
    as (Hcounter & Hstorage & _).
  - vm_compute. reflexivity.
  - vm_compute. reflexivity.
  - reflexivity.
  - reflexivity.
  - reflexivity.
  - destruct Hstorage as (Hin & _ & Hfound); [reflexivity|].
    split; [exact Hcounter|]. split; [exact Hin | exact Hfound].
Defined.

(** * Further properties of the code *)

(** ** [LowerThanGadget.verify] *)

(** On two sequences of 16-bit limbs of one length, not empty, [verify]
    accepts exactly when the left one stands for the smaller integer, least
    significant limb first; otherwise it fails its assertion. *)
Theorem verify_compares (ls rs : list FQ) :
  ls ≠ [] →
  length ls = length rs →
  Forall (λ limb, 0 ≤ limb < 2^16) ls →
  Forall (λ limb, 0 ≤ limb < 2^16) rs →
  verify (mkLowerThanGadget ls rs) = Ok tt ↔ le_value ls < le_value rs.
Proof.
  intros Hne Hlen Hl Hr.
  pose proof (verify_loop_le_value ls rs false Hlen Hl Hr) as Hloop.
  destruct ls as [|l0 ls]; [done|]. destruct rs as [|r0 rs]; [done|].
  simpl verify_loop in Hloop.
  rewrite !andb_false_r, !orb_false_r in Hloop.
  unfold verify. cbn [lhs rhs]. rewrite Hloop.
  cbn [mbind result_bind]. unfold assert_.
  case_bool_decide; split; (done || discriminate).
Qed.

Lemma verify_compares_witness :
  verify (mkLowerThanGadget [1; 0] [0; 1]) = Ok tt ↔
  le_value [1; 0] < le_value [0; 1].
Proof.
  apply verify_compares.
  - discriminate.
  - reflexivity.
  - repeat constructor; vm_compute; congruence.
  - repeat constructor; vm_compute; congruence.
Defined.

Lemma verify_loop_outcome (ls : list FQ) :
  ∀ (rs : list FQ) (lt : bool),
    ((length ls ≤ length rs)%nat ∧ ∃ b, verify_loop lt ls rs = Ok b) ∨
    ((length rs < length ls)%nat ∧ verify_loop lt ls rs = Raise IndexError).
Proof.
  induction ls as [|l ls IH]; intros rs lt.
  - left. split; [simpl; lia|]. by exists lt.
  - destruct rs as [|r rs].
    + right. split; [simpl; lia|done].
    + simpl verify_loop.
      destruct (IH rs ((l <? r) || ((l =? r) && lt)))
        as [[Hlen Hok]|[Hlen Hraise]].
      * left. split; [simpl; lia|done].
      * right. split; [simpl; lia|done].
Qed.

(** [verify] raises [IndexError] exactly when the left sequence is empty or
    the right one is shorter than the left one; a longer right sequence is
    read only as far as the left one goes. *)
Theorem verify_IndexError (ls rs : list FQ) :
  verify (mkLowerThanGadget ls rs) = Raise IndexError ↔
  ls = [] ∨ (length rs < length ls)%nat.
Proof.
  unfold verify. cbn [lhs rhs].
  destruct ls as [|l0 ls]; [by split; [left|]|].
  destruct rs as [|r0 rs]; [split; [right; simpl; lia|done]|].
  destruct (verify_loop_outcome ls rs (l0 <? r0))
    as [[Hlen [b Hok]]|[Hlen Hraise]].
  - rewrite Hok. cbn [mbind result_bind]. split.
    + by destruct b.
    + intros [Hnil|Hlt]; [done|simpl in Hlt; lia].
  - rewrite Hraise. cbn [mbind result_bind]. split; [|done].
    intros _. right. simpl. lia.
Qed.

(** ** The limbs of [keys_rwc_to_limbs_in_order] *)

(** Cutting an integer below 2^(16 n) into [n] limbs loses nothing: there are
    [n] limbs, each of 16 bits, and they stand for the integer. *)
Theorem limbs_of_round_trip `{Externals} (n : nat) (v : Z) :
  2^16 ≤ field_modulus →
  0 ≤ v < 2^(16 * Z.of_nat n) →
  length (limbs_of n v) = n ∧
  Forall (λ limb, 0 ≤ limb < 2^16) (limbs_of n v) ∧
  le_value (limbs_of n v) = v.
Proof.
  intros Hp Hv. split; [apply limbs_of_length|].
  split; [by apply limbs_of_range|].
  rewrite limbs_of_le_value by done. by apply Z.mod_small.
Qed.

Lemma limbs_of_round_trip_witness :
  length (@limbs_of bn128_externals 2 (2^16 + 5)) = 2%nat ∧
  Forall (λ limb, 0 ≤ limb < 2^16) (@limbs_of bn128_externals 2 (2^16 + 5)) ∧
  le_value (@limbs_of bn128_externals 2 (2^16 + 5)) = 2^16 + 5.
Proof.
  apply (@limbs_of_round_trip bn128_externals 2 (2^16 + 5)).
  - vm_compute. congruence.
  - vm_compute. split; congruence.
Defined.

(** ** The ordering check *)

Lemma order_check_compares_packed_witness :
  let row := storage_row 6 0 1 10 9 0 2 in
  let row_prev := storage_row 5 1 1 10 9 0 1 in
  @check_keys_rwc_order bn128_externals row row_prev = Ok tt ↔
  packed_keys_rwc row_prev < packed_keys_rwc row.
Proof.
  intros row row_prev.
  apply (@order_check_compares_packed bn128_externals).
  - vm_compute. congruence.
  - vm_compute. reflexivity.
  - vm_compute. reflexivity.
  - vm_compute. congruence.
Defined.

Lemma order_check_lexicographic_short_keys_witness :
  let row := storage_row 6 0 1 10 9 0 2 in
  let row_prev := storage_row 5 1 1 10 9 0 1 in
  @check_keys_rwc_order bn128_externals row row_prev = Ok tt ↔
  lex_lt (composite_key row_prev) (composite_key row) = true.
Proof.
  intros row row_prev.
  apply (@order_check_lexicographic_short_keys bn128_externals).
  - vm_compute. congruence.
  - vm_compute. reflexivity.
  - vm_compute. reflexivity.
  - vm_compute. reflexivity.
  - vm_compute. reflexivity.
  - vm_compute. congruence.
Defined.

(** Between two rows of the same five keys and the same storage key bytes,
    whatever the length of the storage key, the ordering check accepts
    exactly when the [rw_counter] goes up: a repeated or a smaller
    [rw_counter] is rejected. *)
Theorem same_keys_ordered_by_rw_counter `{Externals} (row row_prev : Row) :
  2^16 ≤ field_modulus →
  within_bit_widths row = true →
  within_bit_widths row_prev = true →
  tag row ≠ Tag.Start →
  keys row = keys row_prev →
  storage_key_int row = storage_key_int row_prev →
  check_keys_rwc_order row row_prev = Ok tt ↔
  rw_counter row_prev < rw_counter row.
Proof.
  intros Hp Hw Hw_prev Hstart Hkeys Hint.
  rewrite check_keys_rwc_order_packed by done.
  unfold packed_keys_rwc, tag, id_, address, field_tag.
  rewrite Hkeys, Hint. lia.
Qed.

Lemma same_keys_ordered_by_rw_counter_witness :
  let row := storage_row 6 0 1 10 9 0 2 in
  let row_prev := storage_row 5 1 1 10 9 0 1 in
  @check_keys_rwc_order bn128_externals row row_prev = Ok tt ↔
  rw_counter row_prev < rw_counter row.
Proof.
  intros row row_prev.
  apply (@same_keys_ordered_by_rw_counter bn128_externals).
  - vm_compute. congruence.
  - vm_compute. reflexivity.
  - vm_compute. reflexivity.
  - vm_compute. congruence.
  - reflexivity.
  - reflexivity.
Defined.

(** With storage keys that fit their slot, a row that passes the ordering
    check after another has a tag that is not below the other's: the tags go
    up along the table, as the source's comment on the check says. *)
Theorem tags_do_not_decrease `{Externals} (row row_prev : Row) :
  2^16 ≤ field_modulus →
  within_bit_widths row = true →
  within_bit_widths row_prev = true →
  storage_key_int row < 2^32 →
  storage_key_int row_prev < 2^32 →
  tag row ≠ Tag.Start →
  check_keys_rwc_order row row_prev = Ok tt →
  tag row_prev ≤ tag row.
Proof.
  intros Hp Hw Hw_prev Hkey Hkey_prev Hstart Hok.
  apply check_keys_rwc_order_lex in Hok; try done.
  unfold composite_key in Hok. simpl in Hok.
  apply orb_true_iff in Hok as [Hlt|Heq].
  - apply Z.ltb_lt in Hlt. lia.
  - apply andb_true_iff in Heq as [Heq _]. apply Z.eqb_eq in Heq. lia.
Qed.

Lemma tags_do_not_decrease_witness :
  tag (storage_row 5 1 1 10 9 0 1) ≤ tag (account_row 7 1 10 2 100 50 3).
Proof.
  apply (@tags_do_not_decrease bn128_externals).
  - vm_compute. congruence.
  - vm_compute. reflexivity.
  - vm_compute. reflexivity.
  - vm_compute. reflexivity.
  - vm_compute. reflexivity.
  - vm_compute. congruence.
  - vm_compute. reflexivity.
Defined.

Lemma for_each_Ok {A : Type} (body : A → result unit) (xs : list A) :
  for_each body xs = Ok tt ↔ Forall (λ x, body x = Ok tt) xs.
Proof.
  induction xs as [|x xs IH]; simpl.
  - split; [by constructor|done].
  - rewrite Forall_cons, <- IH. destruct (body x) as [[]|e]; simpl.
    + tauto.
    + split; [discriminate|]. intros [Hx _]. discriminate Hx.
Qed.

(** [int.from_bytes] returns the integer of the bytes, or raises its
    [ValueError] when an element is not a byte. *)
Lemma int_from_bytes_little_outcome (bs : list Z) :
  (Forall (λ b, 0 ≤ b < 256) bs ∧
   int_from_bytes_little bs = Ok (foldr (λ b acc, b + 256 * acc) 0 bs)) ∨
  (¬ Forall (λ b, 0 ≤ b < 256) bs ∧
   int_from_bytes_little bs
   = Raise (ValueError "bytes must be in range(0, 256)")).
Proof.
  unfold int_from_bytes_little. induction bs as [|b bs IH].
  - left. by split.
  - simpl for_each. destruct (decide (0 ≤ b < 256)) as [Hb|Hb].
    + rewrite bool_decide_eq_true_2 by done. cbn [mbind result_bind].
      destruct IH as [[Hbs Hok]|[Hbs Hraise]].
      * left. split; [by constructor|].
        apply bind_Ok in Hok as ([] & -> & _). done.
      * right. split; [by intros [_ ?]%Forall_cons|].
        destruct (for_each _ bs) as [[]|e]; [discriminate Hraise|].
        exact Hraise.
    + right. rewrite bool_decide_eq_false_2 by done.
      split; [by intros [? _]%Forall_cons|done].
Qed.

Lemma keys_rwc_to_limbs_in_order_outcome `{Externals} (row : Row) :
  (bytes_ok row ∧ ∃ v, keys_rwc_to_limbs_in_order row = Ok (limbs_of 31 v)) ∨
  (¬ bytes_ok row ∧
   keys_rwc_to_limbs_in_order row
   = Raise (ValueError "bytes must be in range(0, 256)")).
Proof.
  unfold keys_rwc_to_limbs_in_order, bytes_ok.
  destruct (int_from_bytes_little_outcome (storage_key_bytes row))
    as [[Hbs ->]|[Hbs ->]]; [left|right]; (split; [done|]); [|done].
  cbn [mbind result_bind]. eauto.
Qed.

Lemma check_keys_rwc_order_Ok_bytes `{Externals} (row row_prev : Row) :
  check_keys_rwc_order row row_prev = Ok tt →
  bytes_ok row_prev ∧ bytes_ok row.
Proof.
  unfold check_keys_rwc_order. intros Hok.
  apply bind_Ok in Hok as ([] & _ & Hok).
  apply bind_Ok in Hok as (limbs_prev & Hprev & Hok).
  apply bind_Ok in Hok as (limbs & Hrow & _).
  destruct (keys_rwc_to_limbs_in_order_outcome row_prev)
    as [[? _]|[_ Hraise]]; [|congruence].
  destruct (keys_rwc_to_limbs_in_order_outcome row)
    as [[? _]|[_ Hraise]]; [|congruence].
  done.
Qed.

(** The ordering check can fail in two ways only: with the [ValueError] of
    [int.from_bytes], exactly when the storage key bytes of one of the two
    rows are not all bytes, and with the assertion of [verify].  The
    assertion on the bit widths holds, and [verify] never runs out of
    limbs. *)
Theorem check_keys_rwc_order_outcomes `{Externals} (row row_prev : Row) :
  (check_keys_rwc_order row row_prev
   = Raise (ValueError "bytes must be in range(0, 256)") ↔
   ¬ (bytes_ok row_prev ∧ bytes_ok row)) ∧
  (check_keys_rwc_order row row_prev = Ok tt ∨
   check_keys_rwc_order row row_prev = Raise (AssertionError "lt") ∨
   check_keys_rwc_order row row_prev
   = Raise (ValueError "bytes must be in range(0, 256)")).
Proof.
  unfold check_keys_rwc_order.
  assert (Hbits : (TAG_BITS + ID_BITS =? 2 * 16) = true) by by vm_compute.
  rewrite Hbits. cbn [assert_ mbind result_bind].
  destruct (keys_rwc_to_limbs_in_order_outcome row_prev)
    as [[Hprev [v_prev ->]]|[Hprev ->]]; cbn [mbind result_bind];
    [|split; [split; [tauto|done]|auto]].
  destruct (keys_rwc_to_limbs_in_order_outcome row)
    as [[Hrow [v ->]]|[Hrow ->]]; cbn [mbind result_bind];
    [|split; [split; [tauto|done]|auto]].
  assert (Hverify : verify (mkLowerThanGadget (limbs_of 31 v_prev) (limbs_of 31 v))
                    = Ok tt ∨
                    verify (mkLowerThanGadget (limbs_of 31 v_prev) (limbs_of 31 v))
                    = Raise (AssertionError "lt")).
  { unfold verify. cbn [lhs rhs limbs_of].
    destruct (verify_loop_outcome
                (limbs_of 30 (Z.shiftr v_prev 16))
                (limbs_of 30 (Z.shiftr v 16))
                (FQ_new (Z.land v_prev 0xFFFF) <? FQ_new (Z.land v 0xFFFF)))
      as [[_ [b Hok]]|[Hlen _]].
    - cbn [limbs_of] in Hok. rewrite Hok. cbn [mbind result_bind].
      destruct b; auto.
    - rewrite !limbs_of_length in Hlen. lia. }
  destruct (tag row =? Tag.Start); cbn [negb].
  - split; [split; [discriminate|tauto]|auto].
  - destruct Hverify as [-> | ->];
      (split; [split; [discriminate|tauto]|auto]).
Qed.

(** ** What [check_state_row] asks of every row *)

(** A row that [check_state_row] accepts has its tag in [1, 12], its id in
    [0, 2^28 - 1] and its field tag in [0, 24]; its address limbs are 16-bit
    limbs; [is_write] is 0 or 1; its storage key bytes, and those of the
    previous row, are bytes; and its [rw_counter] is 0 exactly when it is a
    Start row. *)
Theorem accepted_row_well_formed `{Externals} (row row_prev : Row)
    (tables : Tables) (randomness : FQ) :
  check_state_row row row_prev tables randomness = Ok tt →
  1 ≤ tag row ≤ 12 ∧ 0 ≤ id_ row ≤ 2^28 - 1 ∧ 0 ≤ field_tag row ≤ 24 ∧
  Forall (λ limb, 0 ≤ limb ≤ 2^16 - 1) (address_limbs row) ∧
  (is_write row = 0 ∨ is_write row = 1) ∧
  bytes_ok row ∧ bytes_ok row_prev ∧
  (rw_counter row = 0 ↔ tag row = Tag.Start).
Proof.
  unfold check_state_row, check_all_rows, MAX_TAG, MAX_ID, MAX_FIELD_TAG.
  intros Hok.
  apply bind_Ok in Hok as ([] & Hall & Hby_tag).
  apply bind_Ok in Hall as ([] & Htag%assert_in_range_Ok & Hall).
  apply bind_Ok in Hall as ([] & Hid%assert_in_range_Ok & Hall).
  apply bind_Ok in Hall as ([] & Hfield_tag%assert_in_range_Ok & Hall).
  apply bind_Ok in Hall as ([] & Hlimbs%for_each_Ok & Hall).
  apply bind_Ok in Hall as (lc & _ & Hall).
  apply bind_Ok in Hall as ([] & _ & Hall).
  apply bind_Ok in Hall as (rlc & _ & Hall).
  apply bind_Ok in Hall as ([] & _ & Hall).
  apply bind_Ok in Hall as ([] & Hwrite%assert_Ok & Hall).
  apply bind_Ok in Hall as ([] & Horder & Hall).
  apply bind_Ok in Hall as ([] & _ & Hall).
  apply bind_Ok in Hall as ([] & _ & Hrwc).
  repeat (split; [lia|]).
  split.
  { eapply Forall_impl; [exact Hlimbs|]. intros limb Hlimb. simpl in Hlimb.
    by apply assert_in_range_Ok in Hlimb. }
  split; [lia|].
  assert (Hbytes : bytes_ok row_prev ∧ bytes_ok row)
    by by apply check_keys_rwc_order_Ok_bytes.
  split; [tauto|]. split; [tauto|].
  destruct (tag row =? Tag.Start) eqn:Hstart; cbn [negb] in Hrwc.
  - apply Z.eqb_eq in Hstart. split; [done|]. intros _.
    unfold check_by_tag, check_start in Hby_tag. rewrite Hstart in Hby_tag.
    simpl in Hby_tag. apply bind_Ok in Hby_tag as ([] & Hzero%assert_Ok & _).
    lia.
  - apply Z.eqb_neq in Hstart. apply assert_Ok in Hrwc.
    split; [|done]. intros Hzero. rewrite Hzero in Hrwc. discriminate Hrwc.
Qed.

Lemma accepted_row_well_formed_witness :
  let row := storage_row 5 1 1 10 9 0 1 in
  1 ≤ tag row ≤ 12 ∧ 0 ≤ id_ row ≤ 2^28 - 1 ∧ 0 ≤ field_tag row ≤ 24 ∧
  Forall (λ limb, 0 ≤ limb ≤ 2^16 - 1) (address_limbs row) ∧
  (is_write row = 0 ∨ is_write row = 1) ∧
  bytes_ok row ∧ bytes_ok start_row ∧
  (rw_counter row = 0 ↔ tag row = Tag.Start).
Proof.
  intros row.
  apply (@accepted_row_well_formed bn128_externals row start_row
           (mkTables {[ mkMPTTableRow 1 4 10 0 9 0 ]}) 7).
  vm_compute. reflexivity.
Defined.

(** ** The rules of each tag *)

(** In a row that [check_state_row] accepts, the keys that the row's tag
    leaves unused are 0, and a TxLog row is a write. *)
Theorem accepted_row_unused_keys `{Externals} (row row_prev : Row)
    (tables : Tables) (randomness : FQ) (t : Tag.t) :
  check_state_row row row_prev tables randomness = Ok tt →
  tag row = Tag.value t →
  Forall (λ key, key = 0) (unused_keys t row) ∧
  (t = Tag.TxLog → is_write row = 1).
Proof.
  unfold check_state_row. intros Hok Htag.
  apply bind_Ok in Hok as ([] & _ & Hok).
  rewrite (check_by_tag_selects t) in Hok by done.
  destruct t; simpl in Hok;
    unfold check_start, check_memory, check_stack, check_storage,
      check_call_context, check_account, check_tx_refund,
      check_tx_access_list_account, check_tx_access_list_account_storage,
      check_account_destructed, check_tx_log, check_tx_receipt in Hok;
    ok_inv; (split; [repeat constructor; lia|]); try discriminate.
  intros _. lia.
Qed.

Lemma accepted_row_unused_keys_witness :
  let row := account_row 7 1 10 2 100 50 3 in
  Forall (λ key, key = 0) (unused_keys Tag.Account row) ∧
  (Tag.Account = Tag.TxLog → is_write row = 1).
Proof.
  intros row.
  apply (@accepted_row_unused_keys bn128_externals row
           (storage_row 6 0 1 10 9 0 2) (mkTables sample_table) 7).
  - vm_compute. reflexivity.
  - reflexivity.
Defined.

(** The rules of [check_tx_receipt] on the value and on the transaction id:
    the value of a PostStateOrStatus row is 0 or 1; after a row of the same
    tag the transaction id is the same or the next one, and with the next
    one the value of a CumulativeGasUsed row is above the previous row's;
    after a row of another tag the transaction id is 1. *)
Theorem check_tx_receipt_accepted `{Externals} (row row_prev : Row) :
  check_tx_receipt row row_prev = Ok tt →
  (field_tag row = TxReceiptFieldTag_PostStateOrStatus →
   value row = 0 ∨ value row = 1) ∧
  (tag row = tag row_prev →
   id_ row = id_ row_prev ∨
   (id_ row = FQ_add (id_ row_prev) 1 ∧
    (field_tag row = TxReceiptFieldTag_CumulativeGasUsed →
     value row_prev < value row))) ∧
  (tag row ≠ tag row_prev → id_ row = FQ_new 1).
Proof.
  unfold check_tx_receipt, U256. intros Hok.
  apply bind_Ok in Hok as ([] & _ & Hok).
  apply bind_Ok in Hok as ([] & _ & Hok).
  apply bind_Ok in Hok as ([] & Hstatus & Hok).
  apply bind_Ok in Hok as ([] & Hstep & Hok).
  apply bind_Ok in Hok as ([] & Hfirst & _).
  split; [|split].
  - intros Hft. rewrite Hft, Z.eqb_refl in Hstatus.
    apply assert_Ok in Hstatus. lia.
  - intros Htag. rewrite Htag, Z.eqb_refl, andb_true_r in Hstep.
    destruct (id_ row =? id_ row_prev) eqn:Hid; cbn [negb] in Hstep.
    + left. lia.
    + right. apply bind_Ok in Hstep as ([] & Hnext%assert_Ok & Hgas).
      split; [lia|]. intros Hft. rewrite Hft, Z.eqb_refl in Hgas.
      apply assert_Ok in Hgas. lia.
  - intros Htag%Z.eqb_neq. rewrite Htag in Hfirst. cbn [negb] in Hfirst.
    apply assert_Ok in Hfirst. lia.
Qed.

Lemma check_tx_receipt_accepted_witness :
  let row := plain_row 9 1 Tag.TxReceipt 2 2 150 0 in
  let row_prev := plain_row 8 1 Tag.TxReceipt 1 2 100 0 in
  id_ row = @FQ_add bn128_externals (id_ row_prev) 1 ∧
  value row_prev < value row.
Proof.
  intros row row_prev.
  destruct (@check_tx_receipt_accepted bn128_externals row row_prev)
    as (_ & Hstep & _).
  - vm_compute. reflexivity.
  - destruct Hstep as [Hsame|[Hnext Hgas]]; [reflexivity| |].
    + vm_compute in Hsame. discriminate Hsame.
    + split; [exact Hnext|]. apply Hgas. reflexivity.
Defined.

(** In a pair that [check_state_row] accepts, a Storage or Account row of
    the previous row's five keys has the previous row's committed value. *)
Theorem committed_value_kept `{Externals} (row row_prev : Row)
    (tables : Tables) (randomness : FQ) :
  check_state_row row row_prev tables randomness = Ok tt →
  tag row = Tag.Storage ∨ tag row = Tag.Account →
  keys row = keys row_prev →
  auxs row = auxs row_prev.
Proof.
  unfold check_state_row. intros Hok Htag Hkeys%all_keys_eq_true.
  apply bind_Ok in Hok as ([] & _ & Hok).
  destruct Htag as [Htag|Htag].
  - rewrite (check_by_tag_selects Tag.Storage) in Hok by done.
    simpl in Hok. unfold check_storage in Hok. rewrite Hkeys in Hok.
    apply bind_Ok in Hok as ([] & _ & Hok).
    apply bind_Ok in Hok as ([] & Hkept%assert_Ok & _). lia.
  - rewrite (check_by_tag_selects Tag.Account) in Hok by done.
    simpl in Hok. unfold check_account in Hok. rewrite Hkeys in Hok.
    apply bind_Ok in Hok as ([] & _ & Hok).
    apply bind_Ok in Hok as ([] & _ & Hok).
    apply bind_Ok in Hok as ([] & Hkept%assert_Ok & _). lia.
Qed.

Lemma committed_value_kept_witness :
  auxs (storage_row 6 0 1 10 9 0 2) = auxs (storage_row 5 1 1 10 9 0 1).
Proof.
  apply (@committed_value_kept bn128_externals (storage_row 6 0 1 10 9 0 2)
           (storage_row 5 1 1 10 9 0 1) (mkTables sample_table) 7).
  - vm_compute. reflexivity.
  - left. reflexivity.
  - reflexivity.
Defined.

(** ** Start rows *)

Lemma check_keys_rwc_order_start `{Externals} (row row_prev : Row) :
  tag row = Tag.Start →
  bytes_ok row_prev →
  check_keys_rwc_order row row_prev
  = (keys_rwc_to_limbs_in_order row ;; Ok tt).
Proof.
  intros Htag Hbytes. unfold check_keys_rwc_order.
  assert (Hbits : (TAG_BITS + ID_BITS =? 2 * 16) = true) by by vm_compute.
  rewrite Hbits, Htag. cbn [assert_ mbind result_bind].
  destruct (keys_rwc_to_limbs_in_order_outcome row_prev)
    as [[_ [v ->]]|[Hnot _]]; [|done].
  cbn [mbind result_bind]. by destruct (keys_rwc_to_limbs_in_order row).
Qed.

(** A Start row is checked without regard to the row before it and to the
    table: after any row of another tag whose storage key bytes are bytes,
    with any table, the outcome is the same.  (After a Start row the read
    consistency rule still compares the values.) *)
Theorem start_row_ignores_previous `{Externals} (row : Row)
    (row_prev row_prev' : Row) (tables tables' : Tables) (randomness : FQ) :
  tag row = Tag.Start →
  tag row_prev ≠ Tag.Start → bytes_ok row_prev →
  tag row_prev' ≠ Tag.Start → bytes_ok row_prev' →
  check_state_row row row_prev tables randomness
  = check_state_row row row_prev' tables' randomness.
Proof.
  intros Htag Hprev Hbytes Hprev' Hbytes'.
  assert (Hkeys : ∀ r, tag r ≠ Tag.Start → all_keys_eq row r = false).
  { intros r Hr. apply all_keys_eq_false. intros Heq. apply Hr.
    unfold tag in *. by rewrite <- Heq. }
  unfold check_state_row, check_all_rows, check_by_tag, check_start.
  rewrite !check_keys_rwc_order_start by done.
  rewrite (Hkeys row_prev), (Hkeys row_prev') by done.
  rewrite Htag, !andb_false_r. reflexivity.
Qed.

Lemma start_row_ignores_previous_witness :
  @check_state_row bn128_externals start_row (storage_row 5 1 1 10 9 0 1)
    (mkTables ∅) 7
  = @check_state_row bn128_externals start_row (account_row 7 1 10 2 100 50 3)
      (mkTables sample_table) 7.
Proof.
  apply (@start_row_ignores_previous bn128_externals).
  - reflexivity.
  - vm_compute. congruence.
  - unfold bytes_ok. simpl. repeat constructor; vm_compute; congruence.
  - vm_compute. congruence.
  - unfold bytes_ok. simpl. repeat constructor; vm_compute; congruence.
Defined.

(** ** The row builder *)

Lemma op2row_built `{Externals} (a a' : Assigner) (op : Operation)
    (randomness : FQ) (row : Row) :
  op2row a op randomness = Ok (row, a') → built_from op row.
Proof.
  unfold op2row, int_to_bytes_little. intros Hok.
  apply bind_Ok in Hok as (address_bytes & Hbytes & Hok).
  apply bind_Ok in Hok as (rlc & _ & Hok).
  injection Hok as <- _.
  case_bool_decide as Haddr; [|discriminate Hbytes].
  injection Hbytes as <-.
  change (256 ^ Z.of_nat 20) with (2^160) in Haddr.
  repeat split; (reflexivity || lia).
Qed.

Lemma op2row_each_built `{Externals} (ops : list Operation) (randomness : FQ) :
  ∀ (a : Assigner) (rows : list Row),
    op2row_each a ops randomness = Ok rows → Forall2 built_from ops rows.
Proof.
  induction ops as [|op ops IH]; intros a rows Hok; simpl in Hok.
  - injection Hok as <-. constructor.
  - apply bind_Ok in Hok as ([row a'] & Hop & Hok).
    apply bind_Ok in Hok as (rows' & Hrest & Hok).
    injection Hok as <-. constructor; [by eapply op2row_built|by eapply IH].
Qed.

Lemma FQ_new_canonical `{Externals} (x : Z) :
  0 < field_modulus → canonical (FQ_new x).
Proof. intros Hp. apply Z.mod_pos_bound. exact Hp. Qed.

Lemma limbs_of_bytes_canonical `{Externals} (address_bytes : list Z) :
  0 < field_modulus → Forall canonical (limbs_of_bytes address_bytes).
Proof.
  intros Hp. revert address_bytes.
  fix IH 1. intros [|b0 [|b1 rest]]; simpl; try constructor.
  - by apply FQ_new_canonical.
  - apply IH.
Qed.

Lemma op2row_canonical `{Externals} (a a' : Assigner) (op : Operation)
    (randomness : FQ) (row : Row) :
  0 < field_modulus →
  canonical (Assigner_mpt_counter a) →
  op2row a op randomness = Ok (row, a') →
  canonical_row row ∧ canonical (Assigner_mpt_counter a').
Proof.
  unfold op2row. intros Hp Ha Hok.
  apply bind_Ok in Hok as (address_bytes & _ & Hok).
  apply bind_Ok in Hok as (rlc & _ & Hok).
  injection Hok as <- <-.
  assert (Hcounter : canonical
            (Assigner_mpt_counter
               (if (FQ_new (op_tag op) =? FQ_new Tag.Storage)
                   || (FQ_new (op_tag op) =? FQ_new Tag.Account)
                then mkAssigner (FQ_add (Assigner_mpt_counter a) 1)
                else a))).
  { destruct ((FQ_new (op_tag op) =? FQ_new Tag.Storage)
              || (FQ_new (op_tag op) =? FQ_new Tag.Account)); [|done].
    apply Z.mod_pos_bound. exact Hp. }
  split; [|exact Hcounter].
  unfold canonical_row, tag, id_, address, field_tag.
  cbn [rw_counter is_write keys key2_limbs key4_bytes value auxs mpt_counter].
  repeat (split; [by apply FQ_new_canonical|]).
  split; [destruct (op_rw op =? RW_Read); by apply FQ_new_canonical|].
  repeat (split; [by apply FQ_new_canonical|]).
  split; [by apply limbs_of_bytes_canonical|].
  split.
  { apply Forall_fmap, Forall_forall. intros b _. by apply FQ_new_canonical. }
  repeat (split; [by apply FQ_new_canonical|]).
  exact Hcounter.
Qed.

Lemma op2row_each_canonical `{Externals} (ops : list Operation)
    (randomness : FQ) :
  0 < field_modulus →
  ∀ (a : Assigner) (rows : list Row),
    canonical (Assigner_mpt_counter a) →
    op2row_each a ops randomness = Ok rows → Forall canonical_row rows.
Proof.
  intros Hp. induction ops as [|op ops IH]; intros a rows Ha Hok;
    simpl in Hok.
  - injection Hok as <-. constructor.
  - apply bind_Ok in Hok as ([row a'] & Hop & Hok).
    apply bind_Ok in Hok as (rows' & Hrest & Hok).
    injection Hok as <-.
    destruct (op2row_canonical _ _ _ _ _ Hp Ha Hop) as [Hrow Ha'].
    constructor; [done|]. by eapply IH.
Qed.

(** When [assign_state_circuit] returns, there is one row for each
    operation, in order; the row has the fields of its operation reduced
    into the field, also the value and the auxiliary value, whatever integer
    the operation holds there, and its address fits 160 bits; and every
    field that [op2row] makes with [FQ], the [mpt_counter] included, is a
    canonical field element. *)
Theorem assign_state_circuit_rows `{Externals} (ops : list Operation)
    (randomness : FQ) (rows : list Row) :
  0 < field_modulus →
  assign_state_circuit ops randomness = Ok rows →
  length rows = length ops ∧
  Forall2 built_from ops rows ∧
  Forall canonical_row rows.
Proof.
  intros Hp Hok. split; [|split].
  - apply op2row_each_built in Hok. symmetry. by eapply Forall2_length.
  - by eapply op2row_each_built.
  - apply (op2row_each_canonical ops randomness Hp Assigner_init rows);
      [|done].
    by apply FQ_new_canonical.
Qed.

Lemma assign_state_circuit_rows_witness :
  let ops := [@StackOp bn128_externals 1 1 1 5 (-1)] in
  let rows := [addressed_row 1 1 Tag.Stack 1 5
                 (@field_modulus bn128_externals - 1)] in
  length rows = length ops ∧
  Forall2 (@built_from bn128_externals) ops rows ∧
  Forall (@canonical_row bn128_externals) rows.
Proof.
  intros ops rows.
  apply (@assign_state_circuit_rows bn128_externals ops 7 rows).
  - vm_compute. reflexivity.
  - vm_compute. reflexivity.
Defined.

(** [op2row] raises [OverflowError] for an address that does not fit 160
    bits, whatever the rest of the operation. *)
Theorem op2row_address_overflow `{Externals} (a : Assigner) (op : Operation)
    (randomness : FQ) :
  ¬ (0 ≤ op_address op < 2^160) →
  op2row a op randomness = Raise OverflowError.
Proof.
  intros Haddr. unfold op2row, int_to_bytes_little.
  change (256 ^ Z.of_nat 20) with (2^160).
  by rewrite bool_decide_eq_false_2.
Qed.

Lemma op2row_address_overflow_witness :
  @op2row bn128_externals (@Assigner_init bn128_externals)
    (@MemoryOp bn128_externals 1 1 1 (2^160) 5) 7
  = Raise OverflowError.
Proof.
  apply (@op2row_address_overflow bn128_externals).
  vm_compute. intros [_ Hlt]. discriminate Hlt.
Defined.

Section AddressLimbs.
Context `{Externals}.
Hypothesis modulus_above_limbs : 2^16 ≤ field_modulus.

Lemma limbs_of_bytes_le_bytes (n : nat) :
  ∀ x : Z,
    length (limbs_of_bytes (le_bytes_of (n + n) x)) = n ∧
    Forall (λ limb, 0 ≤ limb < 2^16) (limbs_of_bytes (le_bytes_of (n + n) x)) ∧
    le_value (limbs_of_bytes (le_bytes_of (n + n) x))
    = x mod 2^(16 * Z.of_nat n).
Proof.
  induction n as [|n IH]; intros x.
  - simpl. split; [done|]. split; [constructor|]. by rewrite Z.mod_1_r.
  - replace (S n + S n)%nat with (S (S (n + n))) by lia.
    cbn [le_bytes_of limbs_of_bytes].
    destruct (IH (x / 256 / 256)) as (Hlen & Hrange & Hvalue).
    assert (Hlimb : FQ_new (x mod 256 + 2^8 * (x / 256 mod 256)) = x mod 2^16).
    { unfold FQ_new. change (2^16) with (256 * 256).
      rewrite (Z.rem_mul_r x 256 256) by lia.
      change (2^8) with 256. apply Z.mod_small.
      pose proof (Z.mod_pos_bound x 256).
      pose proof (Z.mod_pos_bound (x / 256) 256). lia. }
    rewrite Hlimb, Z.div_div in * by lia. change (256 * 256) with (2^16) in *.
    split; [simpl; by rewrite Hlen|]. split.
    + constructor; [apply Z.mod_pos_bound; lia|done].
    + unfold le_value. cbn [foldr].
      fold (le_value (limbs_of_bytes (le_bytes_of (n + n) (x / 2^16)))).
      rewrite Hvalue.
      replace (16 * Z.of_nat (S n)) with (16 + 16 * Z.of_nat n) by lia.
      rewrite Z.pow_add_r by lia. by rewrite Z.rem_mul_r by lia.
Qed.

Lemma op2row_address_limbs (a a' : Assigner) (op : Operation)
    (randomness : FQ) (row : Row) :
  op2row a op randomness = Ok (row, a') →
  length (address_limbs row) = 10%nat ∧
  Forall (λ limb, 0 ≤ limb < 2^16) (address_limbs row) ∧
  le_value (address_limbs row) = op_address op.
Proof.
  intros (_ & _ & _ & _ & _ & _ & _ & _ & Haddr & Hlimbs)%op2row_built.
  unfold address_limbs. rewrite Hlimbs.
  destruct (limbs_of_bytes_le_bytes 10 (op_address op))
    as (Hlen & Hrange & Hvalue).
  change (10 + 10)%nat with 20%nat in *.
  split; [done|]. split; [done|].
  rewrite Hvalue. change (16 * Z.of_nat 10) with 160. by apply Z.mod_small.
Qed.

(** The address limbs of a built row are the ten 16-bit limbs of the address
    of its operation: they pass the range check of rule 0.1 and stand for
    the address. *)
Theorem built_row_address_limbs (a a' : Assigner) (op : Operation)
    (randomness : FQ) (row : Row) :
  op2row a op randomness = Ok (row, a') →
  length (address_limbs row) = 10%nat ∧
  Forall (λ limb, 0 ≤ limb < 2^16) (address_limbs row) ∧
  le_value (address_limbs row) = op_address op.
Proof.
  intros (_ & _ & _ & _ & _ & _ & _ & _ & Haddr & Hlimbs)%op2row_built.
  unfold address_limbs. rewrite Hlimbs.
  destruct (limbs_of_bytes_le_bytes 10 (op_address op))
    as (Hlen & Hrange & Hvalue).
  change (10 + 10)%nat with 20%nat in *.
  split; [done|]. split; [done|].
  rewrite Hvalue. change (16 * Z.of_nat 10) with 160. by apply Z.mod_small.
Qed.

End AddressLimbs.

Lemma built_row_address_limbs_witness :
  let row := storage_row 5 1 1 10 9 0 1 in
  length (address_limbs row) = 10%nat ∧
  Forall (λ limb, 0 ≤ limb < 2^16) (address_limbs row) ∧
  le_value (address_limbs row) = 10.
Proof.
  intros row.
  apply (@built_row_address_limbs bn128_externals ltac:(vm_compute; congruence)
           (@Assigner_init bn128_externals) (mkAssigner 1)
           (StorageOp 5 1 1 10 0 9 0) 7 row).
  vm_compute. reflexivity.
Defined.

Section BuiltCounter.
Context `{Externals}.
Hypothesis modulus_above_tags : MAX_TAG < field_modulus.

Lemma is_mpt_row_tag (row : Row) :
  is_mpt_row row = true ↔ tag row = Tag.Storage ∨ tag row = Tag.Account.
Proof.
  unfold is_mpt_row.
  rewrite (FQ_new_tag modulus_above_tags Tag.Storage),
    (FQ_new_tag modulus_above_tags Tag.Account).
  rewrite orb_true_iff, !Z.eqb_eq. done.
Qed.

Lemma op2row_is_mpt (a a' : Assigner) (op : Operation) (randomness : FQ)
    (row : Row) :
  op2row a op randomness = Ok (row, a') →
  mpt_counter row = Assigner_mpt_counter a' ∧
  mpt_counter row
  = if is_mpt_row row then FQ_add (Assigner_mpt_counter a) 1
    else Assigner_mpt_counter a.
Proof.
  intros (Htag & Hrow & Hnext)%(op2row_Ok modulus_above_tags).
  split; [done|]. rewrite Hrow, Hnext.
  assert (Hsame : is_mpt_op op = is_mpt_row row).
  { apply eq_true_iff_eq. rewrite is_mpt_row_tag. unfold is_mpt_op.
    by rewrite bool_decide_eq_true, Htag. }
  by rewrite Hsame.
Qed.

Lemma op2row_each_counter_step (ops : list Operation) (randomness : FQ) :
  ∀ (a : Assigner) (rows : list Row) (idx : nat) (row : Row) (c : FQ),
    op2row_each a ops randomness = Ok rows →
    rows !! idx = Some row →
    match idx with
    | O => c = Assigner_mpt_counter a
    | S idx_prev =>
        ∃ row_prev, rows !! idx_prev = Some row_prev ∧ c = mpt_counter row_prev
    end →
    mpt_counter row = if is_mpt_row row then FQ_add c 1 else c.
Proof.
  induction ops as [|op ops IH]; intros a rows idx row c Hok Hrow Hc;
    simpl in Hok.
  - injection Hok as <-. done.
  - apply bind_Ok in Hok as ([row0 a'] & Hop & Hok).
    apply bind_Ok in Hok as (rows' & Hrest & Hok).
    injection Hok as <-.
    apply op2row_is_mpt in Hop as [Hnext Hstep].
    destruct idx as [|idx].
    + injection Hrow as <-. by subst c.
    + simpl in Hrow. apply (IH a' rows' idx row c Hrest Hrow).
      destruct Hc as (row_prev & Hprev & ->).
      destruct idx as [|idx_prev].
      * injection Hprev as <-. done.
      * simpl in Hprev. eauto.
Qed.

(** The rows of the builder pass the rule on [mpt_counter] of
    [check_state_row]: along the rows, from a previous counter of 0 for the
    first row, the counter goes up by one (in the field) at a Storage or
    Account row and stays at any other row. *)
Theorem built_rows_mpt_counter_rule (ops : list Operation) (randomness : FQ)
    (rows : list Row) (idx : nat) (row row_prev : Row) :
  assign_state_circuit ops randomness = Ok rows →
  rows !! idx = Some row →
  match idx with
  | O => mpt_counter row_prev = 0
  | S idx_prev => rows !! idx_prev = Some row_prev
  end →
  (tag row = Tag.Storage ∨ tag row = Tag.Account →
   mpt_counter row = FQ_add (mpt_counter row_prev) 1) ∧
  (tag row ≠ Tag.Storage → tag row ≠ Tag.Account →
   mpt_counter row = mpt_counter row_prev).
Proof.
  intros Hok Hrow Hprev.
  assert (Hstep : mpt_counter row
                  = if is_mpt_row row then FQ_add (mpt_counter row_prev) 1
                    else mpt_counter row_prev).
  { apply (op2row_each_counter_step ops randomness Assigner_init rows idx);
      [done|done|].
    destruct idx as [|idx_prev]; [|eauto].
    rewrite Hprev. unfold Assigner_init, FQ_new. simpl. by rewrite Zmod_0_l. }
  split.
  - intros Htag%is_mpt_row_tag. by rewrite Htag in Hstep.
  - intros Hstorage Haccount.
    destruct (is_mpt_row row) eqn:Hmpt; [|done].
    apply is_mpt_row_tag in Hmpt. tauto.
Qed.

End BuiltCounter.

Lemma built_rows_mpt_counter_rule_witness :
  mpt_counter (account_row 7 1 10 2 100 50 3)
  = @FQ_add bn128_externals (mpt_counter (storage_row 6 0 1 10 9 0 2)) 1.
Proof.
  destruct (@built_rows_mpt_counter_rule bn128_externals
              ltac:(vm_compute; congruence) sample_ops 7 sample_rows 3
              (account_row 7 1 10 2 100 50 3) (storage_row 6 0 1 10 9 0 2))
    as [Hup _].
  - vm_compute. reflexivity.
  - reflexivity.
  - reflexivity.
  - apply Hup. right. reflexivity.
Defined.

(** ** The projection to the MPT table *)

(** On an empty list, of operations or of rows, [mpt_table_from_ops] raises
    [IndexError]; on rows it raises nothing else, and returns a table for
    every list that is not empty. *)
Theorem mpt_table_from_ops_empty `{Externals} (rows : list Row)
    (randomness : FQ) :
  mpt_table_from_ops (inl []) randomness = Raise IndexError ∧
  (mpt_table_from_ops (inr rows) randomness = Raise IndexError ↔ rows = []) ∧
  (rows = [] ∨ ∃ table, mpt_table_from_ops (inr rows) randomness = Ok table).
Proof.
  unfold mpt_table_from_ops. split; [done|].
  destruct rows as [|row rows]; simpl.
  - split; [done|]. by left.
  - split; [done|]. right. eauto.
Qed.

(** From a list of operations that is not empty the table is the one
    projected from the rows of the builder, and the call fails as the
    builder does. *)
Theorem mpt_table_from_ops_of_operations `{Externals} (ops : list Operation)
    (randomness : FQ) :
  ops ≠ [] →
  mpt_table_from_ops (inl ops) randomness
  = (rows ← assign_state_circuit ops randomness;
     mpt_table_from_ops (inr rows) randomness).
Proof.
  intros Hne. unfold mpt_table_from_ops.
  destruct ops as [|op ops]; [done|].
  destruct (assign_state_circuit (op :: ops) randomness) as [rows|e] eqn:Hrows;
    [|done].
  cbn [mbind result_bind].
  apply op2row_each_built, Forall2_length in Hrows.
  by destruct rows.
Qed.

Lemma mpt_table_from_ops_of_operations_witness :
  @mpt_table_from_ops bn128_externals (inl sample_ops) 7
  = (rows ← @assign_state_circuit bn128_externals sample_ops 7;
     @mpt_table_from_ops bn128_externals (inr rows) 7).
Proof.
  apply (@mpt_table_from_ops_of_operations bn128_externals sample_ops 7).
  discriminate.
Defined.

(** Every entry of the projected table comes from a Storage or Account row:
    it carries the row's [mpt_counter], address, storage key and value, as
    target Storage or the row's field tag, and as [value_prev] the row's
    committed value or the value of the row before when that row has the
    same five keys. *)
Theorem mpt_table_entries_from_rows `{Externals} (rows : list Row)
    (randomness : FQ) (table : gset MPTTableRow) (entry : MPTTableRow) :
  mpt_table_from_ops (inr rows) randomness = Ok table →
  entry ∈ table →
  ∃ (idx : nat) (row : Row),
    rows !! idx = Some row ∧
    is_mpt_row row = true ∧
    counter entry = mpt_counter row ∧
    target entry = (if tag row =? FQ_new Tag.Storage
                    then FQ_new MPTTableTag_Storage else field_tag row) ∧
    mpt_address entry = address row ∧
    mpt_key entry = storage_key row ∧
    mpt_value entry = value row ∧
    (mpt_value_prev entry = auxs row ∨
     ∃ (idx_prev : nat) (row_prev : Row),
       idx = S idx_prev ∧ rows !! idx_prev = Some row_prev ∧
       keys row = keys row_prev ∧ mpt_value_prev entry = value row_prev).
Proof.
  unfold mpt_table_from_ops. intros Hok Hentry.
  apply bind_Ok in Hok as (rows' & Hrows & Hok).
  assert (rows' = rows) as -> by (destruct rows; [done|congruence]).
  injection Hok as <-.
  apply elem_of_list_to_set, list_elem_of_join in Hentry
    as (entries & Hentry & Hentries).
  apply elem_of_lookup_imap in Hentries as (idx & row & -> & Hrow).
  exists idx, row. split; [done|].
  unfold mpt_rows_at, is_mpt_row in *.
  set (value_prev := match idx with
                     | O => auxs row
                     | S idx_prev => _
                     end) in Hentry.
  assert (Hvp : value_prev = auxs row ∨
                ∃ (idx_prev : nat) (row_prev : Row),
                  idx = S idx_prev ∧ rows !! idx_prev = Some row_prev ∧
                  keys row = keys row_prev ∧ value_prev = value row_prev).
  { subst value_prev. destruct idx as [|idx_prev]; [by left|].
    destruct (rows !! idx_prev) as [row_prev|] eqn:Hprev; [|by left].
    destruct (all_keys_eq row row_prev) eqn:Hkeys; [|by left].
    apply all_keys_eq_true in Hkeys. right. eauto 10. }
  destruct (tag row =? FQ_new Tag.Storage) eqn:Hstorage.
  - apply list_elem_of_singleton in Hentry as ->. simpl. by repeat split.
  - destruct (tag row =? FQ_new Tag.Account) eqn:Haccount.
    + apply list_elem_of_singleton in Hentry as ->. simpl. by repeat split.
    + by apply elem_of_nil in Hentry.
Qed.

Lemma mpt_table_entries_from_rows_witness :
  ∃ (idx : nat) (row : Row),
    sample_rows !! idx = Some row ∧
    @is_mpt_row bn128_externals row = true ∧
    2 = mpt_counter row ∧
    4 = (if tag row =? @FQ_new bn128_externals Tag.Storage
         then @FQ_new bn128_externals (@MPTTableTag_Storage bn128_externals)
         else field_tag row) ∧
    10 = address row ∧
    0 = storage_key row ∧
    9 = value row ∧
    (9 = auxs row ∨
     ∃ (idx_prev : nat) (row_prev : Row),
       idx = S idx_prev ∧ sample_rows !! idx_prev = Some row_prev ∧
       keys row = keys row_prev ∧ 9 = value row_prev).
Proof.
  apply (@mpt_table_entries_from_rows bn128_externals sample_rows 7
           sample_table (mkMPTTableRow 2 4 10 0 9 9)).
  - reflexivity.
  - vm_compute. reflexivity.
Defined.

Lemma size_list_to_set_le (entries : list MPTTableRow) :
  (size (list_to_set entries : gset MPTTableRow) ≤ length entries)%nat.
Proof.
  induction entries as [|entry entries IH].
  - by rewrite list_to_set_nil, size_empty.
  - rewrite list_to_set_cons, size_union_alt, size_singleton. simpl length.
    pose proof (subseteq_size
                  (list_to_set entries ∖ {[entry]} : gset MPTTableRow)
                  (list_to_set entries)) as Hsub.
    assert (Hle : (size (list_to_set entries ∖ {[entry]} : gset MPTTableRow)
                   ≤ size (list_to_set entries : gset MPTTableRow))%nat).
    { apply Hsub. intros x Hx. by apply elem_of_difference in Hx as [Hx _]. }
    lia.
Qed.

Lemma length_join_imap `{Externals} (rows : list Row) :
  ∀ body : nat → Row → list MPTTableRow,
    (∀ idx row, length (body idx row) = if is_mpt_row row then 1%nat else 0%nat) →
    length (mjoin (imap body rows)) = length (filter is_mpt_row rows).
Proof.
  induction rows as [|row rows IH]; intros body Hbody; [done|].
  rewrite imap_cons.
  change (mjoin (body 0%nat row :: imap (body ∘ S) rows))
    with (body 0%nat row ++ mjoin (imap (body ∘ S) rows)).
  rewrite length_app, Hbody.
  rewrite (IH (body ∘ S)) by (intros; apply Hbody).
  rewrite filter_cons. destruct (decide (is_mpt_row row)) as [Hmpt|Hmpt].
  - apply Is_true_true in Hmpt. by rewrite Hmpt.
  - apply Is_true_false in Hmpt. by rewrite Hmpt.
Qed.

(** The projected table has at most one entry for each Storage or Account
    row, and none for the other rows. *)
Theorem mpt_table_size `{Externals} (rows : list Row) (randomness : FQ)
    (table : gset MPTTableRow) :
  mpt_table_from_ops (inr rows) randomness = Ok table →
  (size table ≤ length (filter is_mpt_row rows))%nat.
Proof.
  unfold mpt_table_from_ops. intros Hok.
  apply bind_Ok in Hok as (rows' & Hrows & Hok).
  assert (rows' = rows) as -> by (destruct rows; [done|congruence]).
  injection Hok as <-.
  etransitivity; [apply size_list_to_set_le|].
  rewrite (length_join_imap rows (mpt_rows_at rows)); [done|].
  intros idx row. unfold mpt_rows_at, is_mpt_row.
  by repeat case_match.
Qed.

Lemma mpt_table_size_witness :
  (size sample_table
   ≤ length (filter (@is_mpt_row bn128_externals) sample_rows))%nat.
Proof.
  apply (@mpt_table_size bn128_externals sample_rows 7 sample_table).
  reflexivity.
Defined.

(** ** Constructors, builder and validator together *)

Section BuiltChecks.
Context `{Externals}.
Hypothesis modulus_above_limbs : 2^16 ≤ field_modulus.

Lemma FQ_new_small (x : Z) : 0 ≤ x < 2^16 → FQ_new x = x.
Proof. intros Hx. unfold FQ_new. apply Z.mod_small. lia. Qed.

Lemma le_bytes_of_range (n : nat) :
  ∀ x : Z, Forall (λ b, 0 ≤ b < 256) (le_bytes_of n x).
Proof.
  induction n as [|n IH]; intros x; simpl; constructor; [|done].
  apply Z.mod_pos_bound. lia.
Qed.

(** The linear combination in base 2^16 is the integer of the limbs, taken
    into the field. *)
Lemma linear_combine_le_value (limbs : list FQ) :
  linear_combine limbs (FQ_new (2^16)) false = Ok (FQ_new (le_value limbs)).
Proof.
  unfold linear_combine. cbn [mbind result_bind]. f_equal.
  induction limbs as [|limb limbs IH]; [done|].
  cbn [foldr]. rewrite IH. unfold le_value. cbn [foldr].
  fold (le_value limbs). unfold FQ_add, FQ_mul, FQ_new.
  rewrite Zmult_mod_idemp_l, Zmult_mod_idemp_r, Zplus_mod_idemp_l.
  f_equal. lia.
Qed.

Lemma op2row_storage_key (a a' : Assigner) (op : Operation) (randomness : FQ)
    (row : Row) :
  op2row a op randomness = Ok (row, a') →
  ∃ rlc, RLC_new (op_storage_key op) randomness = Ok rlc ∧
         storage_key row = RLC_expr rlc ∧
         storage_key_bytes row = FQ_new <$> le_bytes rlc.
Proof.
  unfold op2row. intros Hok.
  apply bind_Ok in Hok as (address_bytes & _ & Hok).
  apply bind_Ok in Hok as (rlc & Hrlc & Hok).
  injection Hok as <- _. by exists rlc.
Qed.

(** A row of the builder passes the rules 0.1, 0.2 and 0.3 of
    [check_state_row]: its address limbs are in range and combine to its
    address, its storage key is the combination of its storage key bytes
    under the challenge, and [is_write] is 0 or 1. *)
Theorem built_row_passes_decomposition_rules (a a' : Assigner)
    (op : Operation) (randomness : FQ) (row : Row) :
  op2row a op randomness = Ok (row, a') →
  for_each (λ limb, assert_in_range limb 0 (2^16 - 1)) (address_limbs row)
  = Ok tt ∧
  linear_combine (address_limbs row) (FQ_new (2^16)) false
  = Ok (address row) ∧
  linear_combine (storage_key_bytes row) randomness true
  = Ok (storage_key row) ∧
  (is_write row = 0 ∨ is_write row = 1).
Proof.
  intros Hok.
  destruct (op2row_address_limbs modulus_above_limbs _ _ _ _ _ Hok)
    as (_ & Hrange & Hvalue).
  destruct (op2row_storage_key _ _ _ _ _ Hok) as (rlc & Hrlc & Hkey & Hbytes).
  apply op2row_built in Hok
    as (_ & Hwrite & _ & _ & Haddr & _ & _ & _ & _ & _).
  split; [|split; [|split]].
  - apply for_each_Ok. eapply Forall_impl; [exact Hrange|].
    intros limb Hlimb. cbv beta in *. unfold assert_in_range, assert_.
    by rewrite !(proj2 (Z.leb_le _ _)) by lia.
  - by rewrite linear_combine_le_value, Hvalue, Haddr.
  - unfold RLC_new, int_to_bytes_little in Hrlc.
    case_bool_decide; [|discriminate Hrlc]. cbn [mbind result_bind] in Hrlc.
    apply bind_Ok in Hrlc as (combined & Hcombine & Hrlc).
    injection Hrlc as <-. unfold RLC_expr in Hkey. cbn [le_bytes rlc_value] in *.
    assert (Hsame : ∀ bs, Forall (λ b, 0 ≤ b < 256) bs → FQ_new <$> bs = bs).
    { intros bs Hbs. rewrite <- (list_fmap_id bs) at 2.
      apply Forall_fmap_ext_1. eapply Forall_impl; [exact Hbs|].
      intros b Hb. cbv beta in Hb. unfold id. apply FQ_new_small. lia. }
    rewrite Hbytes, Hkey, Hsame; [exact Hcombine|].
    apply (le_bytes_of_range 32 (op_storage_key op)).
  - rewrite Hwrite. destruct (op_rw op =? RW_Read); [left|right];
      apply FQ_new_small; lia.
Qed.

End BuiltChecks.

Lemma built_row_passes_decomposition_rules_witness :
  let row := storage_row_key_2_49 6 0 7 3 1 in
  for_each (λ limb, assert_in_range limb 0 (2^16 - 1)) (address_limbs row)
  = Ok tt ∧
  @linear_combine bn128_externals (address_limbs row)
    (@FQ_new bn128_externals (2^16)) false = Ok (address row) ∧
  @linear_combine bn128_externals (storage_key_bytes row) 7 true
  = Ok (storage_key row) ∧
  (is_write row = 0 ∨ is_write row = 1).
Proof.
  intros row.
  apply (@built_row_passes_decomposition_rules bn128_externals
           ltac:(vm_compute; congruence) (@Assigner_init bn128_externals)
           (mkAssigner 1) (StorageOp 6 1 1 0 (2^49) 7 3) 7 row).
  vm_compute. reflexivity.
Defined.

Section Constructors.
Context `{Externals}.
Hypothesis modulus_above_tags : MAX_TAG < field_modulus.

Lemma FQ_new_0 : FQ_new 0 = 0.
Proof. unfold FQ_new. apply Zmod_0_l. Qed.

Lemma linear_combine_zeros (n : nat) (base : FQ) :
  linear_combine (replicate n 0) base true = Ok 0.
Proof.
  unfold linear_combine.
  assert (Hbytes : for_each
            (λ limb, assert_ "0 <= limb < 256" (bool_decide (0 ≤ limb < 256)))
            (replicate n 0) = Ok tt).
  { induction n as [|n IH]; [done|]. simpl. exact IH. }
  rewrite Hbytes. cbn [mbind result_bind]. f_equal. clear Hbytes.
  induction n as [|n IH]; simpl; [apply FQ_new_0|].
  rewrite IH. unfold FQ_add, FQ_mul.
  rewrite Z.mul_0_l, Zmod_0_l. exact (Zmod_0_l field_modulus).
Qed.

Lemma op2row_storage_key_zero (a a' : Assigner) (op : Operation)
    (randomness : FQ) (row : Row) :
  op2row a op randomness = Ok (row, a') →
  op_storage_key op = 0 →
  storage_key row = 0.
Proof.
  intros (rlc & Hrlc & -> & _)%op2row_storage_key Hzero.
  rewrite Hzero in Hrlc. unfold RLC_new, int_to_bytes_little in Hrlc.
  rewrite bool_decide_eq_true_2 in Hrlc by (vm_compute; split; congruence).
  change (le_bytes_of 32 0) with (replicate 32 0) in Hrlc.
  cbn [mbind result_bind] in Hrlc. rewrite linear_combine_zeros in Hrlc.
  cbn [mbind result_bind] in Hrlc. by injection Hrlc as <-.
Qed.

(** The row that the builder makes of an operation built by the constructor
    of a tag carries that tag, and the keys that the tag leaves unused are 0
    in it: it passes the "unused keys" assertions of its checker. *)
Theorem constructed_row_unused_keys (t : Tag.t) (op : Operation)
    (a a' : Assigner) (randomness : FQ) (row : Row) :
  constructed t op →
  op2row a op randomness = Ok (row, a') →
  tag row = Tag.value t ∧ Forall (λ key, key = 0) (unused_keys t row).
Proof.
  intros Hop Hok.
  pose proof (op2row_storage_key_zero _ _ _ _ _ Hok) as Hkey.
  apply op2row_built in Hok
    as (_ & _ & Htag & Hid & Haddr & Hfield_tag & _).
  destruct Hop; cbn [op_tag op_id op_address op_field_tag
    op_storage_key StartOp MemoryOp StackOp StorageOp CallContextOp AccountOp
    TxRefundOp TxAccessListAccountOp TxAccessListAccountStorageOp
    AccountDestructedOp TxLogOp TxReceiptOp] in *;
    unfold U256 in *; rewrite ?FQ_new_0 in *;
    (split; [by rewrite Htag, FQ_new_tag|]);
    cbn [unused_keys]; repeat constructor; auto.
Qed.

End Constructors.

Lemma constructed_row_unused_keys_witness :
  let row := account_row 7 1 10 2 100 50 1 in
  tag row = Tag.value Tag.Account ∧
  Forall (λ key, key = 0) (unused_keys Tag.Account row).
Proof.
  intros row.
  apply (@constructed_row_unused_keys bn128_externals
           ltac:(vm_compute; congruence) Tag.Account
           (AccountOp 7 1 10 2 100 50) (@Assigner_init bn128_externals)
           (mkAssigner 1) 7 row).
  - apply constructed_Account.
  - vm_compute. reflexivity.
Defined.
